(** * LEvent: priority-ordered events, connections and the event manager

    A shallow embedding of [LEvent.h], [SimpleDelegate.h] and the event
    manager ([LEventManager.h], listed in [README.md]) of the LEvent
    library, followed by the properties of the listener sequence, of
    connections and of the manager.

    Conventions of the embedding.
    - A [std::shared_ptr<T>] is the address of the shared object together
      with (for delegates, which never change after construction) the
      object itself.  Events are mutable and shared between a manager slot
      and every connection, so they live in a store ([Heap]) and are
      referred to by address.
    - [int] priorities are integers of [Z]; the code only compares them.
    - Template parameters become ordinary parameters: the delegate factory
      is a type class, [ReturnType] and [Args...] a [Signature].
    - A listener is arbitrary code of the client.  It is modelled as a
      function on a client-chosen [World]; every call of a delegate's
      [operator()] is recorded in a ghost trace ([calls]).  Listeners that
      start a nested [Trigger] of the event that is calling them are outside
      the model. *)

From stdpp Require Import base list strings sorting.
From Stdlib Require Import ZArith.

(** ** Error codes *)

Inductive EError :=
  | OK
  | EventAlreadyDefined
  | FailedToMatchEventType
  | ModifyingCallbackListDuringBroadcast
  | CallbackAlreadyAdded
  | EventsBlocked.

#[global] Instance EError_eq_dec : EqDecision EError.
Proof. solve_decision. Defined.

(** ** Outcomes of calls that can throw or leave the defined behaviour *)

Inductive Outcome (A : Type) :=
  | Returns (a : A)
  | Throws_bad_any_cast
  | Undefined.
Arguments Returns {A} a.
Arguments Throws_bad_any_cast {A}.
Arguments Undefined {A}.

Definition obind {A B} (m : Outcome A) (k : A -> Outcome B) : Outcome B :=
  match m with
  | Returns a => k a
  | Throws_bad_any_cast => Throws_bad_any_cast
  | Undefined => Undefined
  end.

(** ** Iterators of [std::vector] *)

(** [std::ranges::find_if]: the position of the first element satisfying
    [pred], or [length l] (the [end()] iterator) when there is none. *)
Fixpoint find_if {A} (pred : A -> bool) (l : list A) : nat :=
  match l with
  | [] => 0
  | x :: l' => if pred x then 0 else S (find_if pred l')
  end.

(** [v.insert(it, x)]: [x] is placed before the element at [it]. *)
Definition vector_insert {A} (it : nat) (x : A) (l : list A) : list A :=
  take it l ++ x :: drop it l.

(** [v.erase(it)], for an iterator that is not [end()]. *)
Definition vector_erase {A} (it : nat) (l : list A) : list A :=
  take it l ++ drop (S it) l.

(** ** The delegate factory interface

    [LEvent] uses its template parameter [DelegateFactory<ReturnType,
    Args...>] through the nested type [Delegate], the static [MakeDelegate]
    overloads, the member [Priority], [operator()] and [operator==]. *)

Class DelegateFactory (Val World : Type) := {
  DelegateType : Type;
  CalleeForm : Type;
  MakeDelegate : CalleeForm -> Z -> DelegateType;
  Priority : DelegateType -> Z;
  Invoke : DelegateType -> list Val -> World -> Val * World;
  DelegateEq : DelegateType -> DelegateType -> bool
}.

(** *** [SimpleDelegateFactory] ([SimpleDelegate.h])

    Every [MakeDelegate] overload binds its callee into a [std::function];
    the delegate stores that and the priority.  [operator==] cannot compare
    [std::function]s and answers [false]. *)
Module SimpleDelegateFactory.
Section Simple.
Context (Val World : Type).

Definition CalleeType := list Val -> World -> Val * World.

Record Delegate := {
  Callee : CalleeType;
  Priority : Z
}.

Definition call (d : Delegate) (InArgs : list Val) (w : World) : Val * World :=
  Callee d InArgs w.

Definition eq (d Other : Delegate) : bool := false.

Definition MakeDelegate (InFuncPtr : CalleeType) (InPriority : Z) : Delegate :=
  {| Callee := InFuncPtr; Priority := InPriority |}.
End Simple.
End SimpleDelegateFactory.

#[global] Instance SimpleDelegateFactory (Val World : Type) : DelegateFactory Val World := {|
  DelegateType := SimpleDelegateFactory.Delegate Val World;
  CalleeForm := SimpleDelegateFactory.CalleeType Val World;
  MakeDelegate := SimpleDelegateFactory.MakeDelegate Val World;
  Priority := SimpleDelegateFactory.Priority Val World;
  Invoke := SimpleDelegateFactory.call Val World;
  DelegateEq := SimpleDelegateFactory.eq Val World
|}.

(** ** Types of the C++ program, as far as [typeid] tells them apart *)

Inductive CType :=
  | Void
  | Named (name : string).

#[global] Instance CType_eq_dec : EqDecision CType.
Proof. solve_decision. Defined.

Record Signature := {
  ReturnType : CType;
  Args : list CType
}.

#[global] Instance Signature_eq_dec : EqDecision Signature.
Proof. solve_decision. Defined.

Definition is_void (T : CType) : bool := bool_decide (T = Void).

(** What a trigger through the manager returns: the error alone for a
    [void] signature, the [MaybeResult] structure otherwise. *)
Inductive TriggerOutput (ContainerType : Type) :=
  | ErrorOnly (Error : EError)
  | MaybeResult (Results : ContainerType) (Error : EError).
Arguments ErrorOnly {ContainerType} Error.
Arguments MaybeResult {ContainerType} Results Error.

Section Model.
Context {Val World : Type} `{Factory : DelegateFactory Val World}.

(** ** Delegates held by [std::shared_ptr] *)

Record DelegatePtr := make_shared {
  Addr : nat;
  Target : DelegateType
}.

(** [Data == DelegatePtr] on shared pointers compares addresses. *)
Definition ptr_eqb (Data DelegatePtr : DelegatePtr) : bool :=
  Nat.eqb (Addr Data) (Addr DelegatePtr).

(** ** [LEvent] *)

Record LEvent := {
  Delegates : list DelegatePtr;
  bIsBroadcasting : bool
}.

(** [LEvent() = default] *)
Definition LEvent_new : LEvent :=
  {| Delegates := []; bIsBroadcasting := false |}.

Definition set_Delegates (e : LEvent) (l : list DelegatePtr) : LEvent :=
  {| Delegates := l; bIsBroadcasting := bIsBroadcasting e |}.

Definition set_bIsBroadcasting (e : LEvent) (b : bool) : LEvent :=
  {| Delegates := Delegates e; bIsBroadcasting := b |}.

Definition IsBroadcasting (e : LEvent) : bool := bIsBroadcasting e.

Definition InsertDelegate (e : LEvent) (DelegatePtr : DelegatePtr)
    (AllowDuplicates : bool) : bool * LEvent :=
  let duplicate :=
    if negb AllowDuplicates then
      let FoundIt :=
        find_if (fun Data => DelegateEq (Target Data) (Target DelegatePtr))
                (Delegates e) in
      negb (Nat.eqb FoundIt (length (Delegates e)))
    else false in
  if duplicate then (false, e)
  else
    let InsertIt :=
      find_if (fun Data => (Priority (Target Data) <? Priority (Target DelegatePtr))%Z)
              (Delegates e) in
    (true, set_Delegates e (vector_insert InsertIt DelegatePtr (Delegates e))).

(** Both [AddListener] overloads have the same body; they differ in the
    [MakeDelegate] overload they call.  [a] is the address of the object
    [std::make_shared] creates. *)
Definition AddListener (e : LEvent) (a : nat) (FuncPtr : CalleeForm)
    (Priority : Z) (AllowDuplicates : bool) : option DelegatePtr * LEvent :=
  if bIsBroadcasting e then (None, e)
  else
    let DelegatePtr := make_shared a (MakeDelegate FuncPtr Priority) in
    let '(Success, e') := InsertDelegate e DelegatePtr AllowDuplicates in
    (if Success then Some DelegatePtr else None, e').

(** [EError RemoveListener(std::shared_ptr<DelegateType>)] *)
Definition RemoveListener (e : LEvent) (DelegatePtr : DelegatePtr) : EError * LEvent :=
  if bIsBroadcasting e then (ModifyingCallbackListDuringBroadcast, e)
  else
    let FoundIt := find_if (fun Data => ptr_eqb Data DelegatePtr) (Delegates e) in
    (OK,
     if negb (Nat.eqb FoundIt (length (Delegates e)))
     then set_Delegates e (vector_erase FoundIt (Delegates e))
     else e).

(** ** Running listeners

    [world] is whatever the listeners read and write; [calls] is the
    ghost trace of [operator()] calls, oldest first: the address of the
    delegate called and the value of the owning event's broadcasting flag
    at the moment of the call. *)

Record Exec := {
  world : World;
  calls : list (nat * bool)
}.

(** The call of [D]'s [operator()] with [InArgs...] inside a member function
    of [e] *)
Definition invoke (e : LEvent) (D : DelegatePtr) (InArgs : list Val)
    (s : Exec) : Val * Exec :=
  let '(r, w) := Invoke (Target D) InArgs (world s) in
  (r, {| world := w; calls := calls s ++ [(Addr D, bIsBroadcasting e)] |}).

(** The loop over [Delegates] that calls each delegate and drops what it
    returns *)
Definition for_each_call (e : LEvent) (InArgs : list Val) (s : Exec) : Exec :=
  fold_left (fun s D => snd (invoke e D InArgs s)) (Delegates e) s.

(** The loop over [Delegates] that hands each delegate's return value to
    [Adder(Results, _)], with [Results] starting as [Results0] *)
Definition for_each_collect {Container : Type} (Adder : Container -> Val -> Container)
    (e : LEvent) (InArgs : list Val) (Results0 : Container) (s : Exec)
    : Container * Exec :=
  fold_left (fun '(Results, s) D =>
               let '(r, s') := invoke e D InArgs s in (Adder Results r, s'))
            (Delegates e) (Results0, s).

(** [Results.push_back(r)] *)
Definition push_back (Results : list Val) (r : Val) : list Val := Results ++ [r].

(** [Trigger]: nothing is returned for [ReturnType = void], the vector
    of results otherwise. *)
Definition Trigger (ReturnType : CType) (e : LEvent) (InArgs : list Val)
    (s : Exec) : option (list Val) * LEvent * Exec :=
  let e := set_bIsBroadcasting e true in
  if is_void ReturnType then
    let s := for_each_call e InArgs s in
    let e := set_bIsBroadcasting e false in
    (None, e, s)
  else
    let '(Results, s) := for_each_collect push_back e InArgs [] s in
    let e := set_bIsBroadcasting e false in
    (Some Results, e, s).

(** [TriggerComplex<ContainerType, AdderFunc>]: [Default] is the
    default-constructed [ContainerType]. *)
Definition TriggerComplex {ContainerType : Type} (Default : ContainerType)
    (ReturnType : CType) (Adder : ContainerType -> Val -> ContainerType)
    (e : LEvent) (InArgs : list Val) (s : Exec)
    : option ContainerType * LEvent * Exec :=
  let e := set_bIsBroadcasting e true in
  if is_void ReturnType then
    let s := for_each_call e InArgs s in
    let e := set_bIsBroadcasting e false in
    (None, e, s)
  else
    let '(Results, s) := for_each_collect Adder e InArgs Default s in
    let e := set_bIsBroadcasting e false in
    (Some Results, e, s).

(** ** [Connection]

    [Event] is a [std::shared_ptr<ILEvent>] (null is [None]); [Delegate]
    is the [std::any], empty or holding the [std::shared_ptr<DelegateType>]
    the connection was built with. *)

Record Connection := {
  Event : option nat;
  Delegate : option DelegatePtr;
  bActive : bool;
  Error : EError
}.

(** [Connection(EError InError)] *)
Definition Connection_error (InError : EError) : Connection :=
  {| Event := None; Delegate := None; bActive := true; Error := InError |}.

(** [Connection(std::shared_ptr<ILEvent>, std::shared_ptr<T>)], for a
    non-null event *)
Definition Connection_bound (InEvent : nat) (InDelegate : DelegatePtr) : Connection :=
  {| Event := Some InEvent; Delegate := Some InDelegate; bActive := true; Error := OK |}.

(** What a move leaves behind: the shared pointer is null and the
    [std::any] is given up; [bActive] and [Error] are only read. *)
Definition moved_from (Other : Connection) : Connection :=
  {| Event := None; Delegate := None; bActive := bActive Other; Error := Error Other |}.

(** [Connection(Connection&& Other)]: the new connection and [Other]
    afterwards. *)
Definition Connection_move (Other : Connection) : Connection * Connection :=
  ({| Event := Event Other; Delegate := Delegate Other;
      bActive := bActive Other; Error := Error Other |},
   moved_from Other).

(** [operator=(Connection&& Other)] on [This], a different object:
    [This] and [Other] afterwards. *)
Definition Connection_move_assign (This Other : Connection) : Connection * Connection :=
  ({| Event := Event Other; Delegate := Delegate Other;
      bActive := bActive Other; Error := Error Other |},
   moved_from Other).

(** [explicit operator bool()] *)
Definition Connection_bool (c : Connection) : bool :=
  bool_decide (is_Some (Event c)) && bActive c.

Definition IsActive (c : Connection) : bool :=
  bActive c && bool_decide (Error c = OK).

Definition GetError (c : Connection) : EError := Error c.

Definition set_bActive (c : Connection) (b : bool) : Connection :=
  {| Event := Event c; Delegate := Delegate c; bActive := b; Error := Error c |}.

(** [void RemoveListener(Connection& Conn)]: [std::any_cast] throws on
    an [any] that does not hold the delegate pointer. *)
Definition RemoveListener_Connection (e : LEvent) (Conn : Connection) : Outcome LEvent :=
  if bIsBroadcasting e then Returns e
  else
    match Delegate Conn with
    | None => Throws_bad_any_cast
    | Some DelegatePtr =>
        let FoundIt := find_if (fun Data => ptr_eqb Data DelegatePtr) (Delegates e) in
        Returns (if negb (Nat.eqb FoundIt (length (Delegates e)))
                 then set_Delegates e (vector_erase FoundIt (Delegates e))
                 else e)
    end.

(** ** The store of events

    [std::make_shared<EventType>()] appends a new event; its address is
    its index.  Events are never taken out of the store: what the
    reference counts free is no longer reachable. *)

Abbreviation Heap := (list LEvent).

(** [Connection::Disconnect].  An event that a connection points to is
    kept alive by that pointer, so the lookup cannot fail in a run of the
    program; the model answers [Undefined] there. *)
Definition Disconnect (c : Connection) (h : Heap) : Outcome (Connection * Heap) :=
  match Event c with
  | Some a =>
      if bActive c then
        match h !! a with
        | Some e =>
            obind (RemoveListener_Connection e c)
                  (fun e' => Returns (set_bActive c false, <[a := e']> h))
        | None => Undefined
        end
      else Returns (set_bActive c false, h)
  | None => Returns (set_bActive c false, h)
  end.

(** ** [Manager<EnumType, DelegateFactory>]

    A slot is a [std::any]: empty, or holding the
    [std::shared_ptr<LEvent<DelegateFactory, ReturnType, Args...>>] it was
    declared with; [Slot.type()] is determined by the signature.  An
    identifier is the integer [static_cast<int>(ID)]; indexing [Events]
    with an identifier that is not below [EnumType::Count] is
    [Undefined]. *)

Definition Slot := option (Signature * nat).

Record Manager := {
  Events : list Slot;
  bEventsBlocked : bool
}.

(** The singleton instance when [Get()] first builds it. *)
Definition Manager_new (Count : nat) : Manager :=
  {| Events := replicate Count None; bEventsBlocked := false |}.

Definition BlockEvents (m : Manager) (b : bool) : Manager :=
  {| Events := Events m; bEventsBlocked := b |}.

Definition has_value (s : Slot) : bool :=
  match s with Some _ => true | None => false end.

(** [!Slot.has_value() || Slot.type() != typeid(SlotType)], and the
    address [std::any_cast<SlotType&>] yields otherwise *)
Definition slot_cast (s : Slot) (sig : Signature) : option nat :=
  match s with
  | None => None
  | Some (stored, a) => if bool_decide (stored = sig) then Some a else None
  end.

(** [Detail_DeclareEvent<ReturnType(Args...)>::DeclareEvent<ID>] *)
Definition DeclareEvent (ID : nat) (sig : Signature) (CanReplace : bool)
    (m : Manager) (h : Heap) : Outcome (bool * Manager * Heap) :=
  match Events m !! ID with
  | None => Undefined
  | Some Slot =>
      if CanReplace || negb (has_value Slot) then
        Returns (true,
                 {| Events := <[ID := Some (sig, length h)]> (Events m);
                    bEventsBlocked := bEventsBlocked m |},
                 h ++ [LEvent_new])
      else Returns (false, m, h)
  end.

(** The private [AddListener<ID, EventType>], which every
    [AddEventListener] overload forwards to with the event type it
    derives from its callee. *)
Definition AddEventListener (ID : nat) (sig : Signature) (a : nat)
    (FuncPtr : CalleeForm) (Priority : Z) (AllowDuplicates : bool)
    (m : Manager) (h : Heap) : Outcome (Connection * Heap) :=
  match Events m !! ID with
  | None => Undefined
  | Some Slot =>
      match slot_cast Slot sig with
      | None => Returns (Connection_error FailedToMatchEventType, h)
      | Some CastedSlot =>
          match h !! CastedSlot with
          | None => Undefined
          | Some e =>
              if IsBroadcasting e then
                Returns (Connection_error ModifyingCallbackListDuringBroadcast, h)
              else
                let '(AddedDelegate, e') :=
                  AddListener e a FuncPtr Priority AllowDuplicates in
                match AddedDelegate with
                | None => Returns (Connection_error CallbackAlreadyAdded,
                                   <[CastedSlot := e']> h)
                | Some d => Returns (Connection_bound CastedSlot d,
                                     <[CastedSlot := e']> h)
                end
          end
      end
  end.

Definition TriggerEvent (ID : nat) (sig : Signature) (InArgs : list Val)
    (m : Manager) (h : Heap) (s : Exec)
    : Outcome (TriggerOutput (list Val) * Heap * Exec) :=
  match Events m !! ID with
  | None => Undefined
  | Some Slot =>
      if is_void (ReturnType sig) then
        if bEventsBlocked m then Returns (ErrorOnly EventsBlocked, h, s)
        else
          match slot_cast Slot sig with
          | None => Returns (ErrorOnly FailedToMatchEventType, h, s)
          | Some CastedSlot =>
              match h !! CastedSlot with
              | None => Undefined
              | Some e =>
                  let '(_, e', s') := Trigger (ReturnType sig) e InArgs s in
                  Returns (ErrorOnly OK, <[CastedSlot := e']> h, s')
              end
          end
      else
        if bEventsBlocked m then Returns (MaybeResult [] EventsBlocked, h, s)
        else
          match slot_cast Slot sig with
          | None => Returns (MaybeResult [] FailedToMatchEventType, h, s)
          | Some CastedSlot =>
              match h !! CastedSlot with
              | None => Undefined
              | Some e =>
                  let '(Results, e', s') := Trigger (ReturnType sig) e InArgs s in
                  Returns (MaybeResult (default [] Results) OK,
                           <[CastedSlot := e']> h, s')
              end
          end
  end.

(** [TriggerEventComplex<ID, ContainerType>]: [ValueType] is the element
    type of the container and [ArgTypes] the deduced [Args...]; a
    container has no [void] elements. *)
Definition TriggerEventComplex {ContainerType : Type} (Default : ContainerType)
    (ID : nat) (ValueType : CType) (ArgTypes : list CType)
    (Adder : ContainerType -> Val -> ContainerType) (InArgs : list Val)
    (m : Manager) (h : Heap) (s : Exec)
    : Outcome (TriggerOutput ContainerType * Heap * Exec) :=
  let sig := {| ReturnType := ValueType; Args := ArgTypes |} in
  match Events m !! ID with
  | None => Undefined
  | Some Slot =>
      if bEventsBlocked m then Returns (MaybeResult Default EventsBlocked, h, s)
      else
        match slot_cast Slot sig with
        | None => Returns (MaybeResult Default FailedToMatchEventType, h, s)
        | Some CastedSlot =>
            match h !! CastedSlot with
            | None => Undefined
            | Some e =>
                let '(Results, e', s') :=
                  TriggerComplex Default ValueType Adder e InArgs s in
                Returns (MaybeResult (default Default Results) OK,
                         <[CastedSlot := e']> h, s')
            end
        end
  end.

(** [DestroyAll]: every slot is reset. *)
Definition DestroyAll (m : Manager) : Manager :=
  {| Events := replicate (length (Events m)) None;
     bEventsBlocked := bEventsBlocked m |}.
End Model.

Arguments Exec : clear implicits.
Abbreviation Heap := (list LEvent).

(** ** Sequences of calls, and what a broadcast is expected to do *)

Definition output_error {ContainerType : Type} (out : TriggerOutput ContainerType)
    : EError :=
  match out with
  | ErrorOnly Error => Error
  | MaybeResult _ Error => Error
  end.

(** What [TriggerEvent] returns when it does not run the event: the error
    alone for a [void] signature, the error next to a default-constructed
    (empty) vector otherwise. *)
Definition not_triggered {Val : Type} (sig : Signature) (Error : EError)
    : TriggerOutput (list Val) :=
  if is_void (ReturnType sig) then ErrorOnly Error else MaybeResult [] Error.

Section Drivers.
Context {Val World : Type} `{Factory : DelegateFactory Val World}.

(** The priority a stored delegate is ordered by: [Data->Priority]. *)
Definition prio (d : DelegatePtr) : Z := Priority (Target d).

(** One [AddListener] call: the address [std::make_shared] picks for
    the new delegate and the arguments of the call. *)
Record AddCall := {
  call_addr : nat;
  call_callee : CalleeForm;
  call_priority : Z;
  call_dups : bool
}.

(** A sequence of [AddListener] calls on one event: the handles returned,
    in call order, and the event afterwards. *)
Fixpoint AddListeners (e : LEvent) (cs : list AddCall)
    : list (option DelegatePtr) * LEvent :=
  match cs with
  | [] => ([], e)
  | c :: cs' =>
      let '(r, e1) :=
        AddListener e (call_addr c) (call_callee c) (call_priority c) (call_dups c) in
      let '(rs, e2) := AddListeners e1 cs' in
      (r :: rs, e2)
  end.

(** The delegates that were stored, in the order of the calls. *)
Definition accepted (handles : list (option DelegatePtr)) : list DelegatePtr :=
  omap id handles.

(** Calling the delegates of [l] one after the other, each once: the
    values they return, in that order, and the world they leave. *)
Fixpoint run_listeners (l : list DelegatePtr) (InArgs : list Val) (w : World)
    : list Val * World :=
  match l with
  | [] => ([], w)
  | D :: l' =>
      let '(r, w1) := Invoke (Target D) InArgs w in
      let '(rs, w2) := run_listeners l' InArgs w1 in
      (r :: rs, w2)
  end.

(** The trace a broadcast over [l] leaves: every delegate once, in the
    order of [l], each called while the flag is set. *)
Definition broadcast_trace (l : list DelegatePtr) : list (nat * bool) :=
  map (fun D => (Addr D, true)) l.

(** Non-increasing priorities. *)
Definition by_priority (l : list DelegatePtr) : Prop :=
  StronglySorted (fun x y => (prio y <= prio x)%Z) l.

(** The states an event goes through: it starts as a new event and is
    changed by its member functions only; [reach_broadcasting] is the state
    the listeners of a running broadcast see. *)
Inductive reachable : LEvent -> Prop :=
  | reach_new : reachable LEvent_new
  | reach_AddListener e (a : nat) (f : CalleeForm) (p : Z) (dups : bool) :
      reachable e -> reachable (AddListener e a f p dups).2
  | reach_RemoveListener e (D : DelegatePtr) :
      reachable e -> reachable (RemoveListener e D).2
  | reach_RemoveListener_Connection e (c : Connection) e' :
      reachable e -> RemoveListener_Connection e c = Returns e' -> reachable e'
  | reach_broadcasting e :
      reachable e -> reachable (set_bIsBroadcasting e true)
  | reach_Trigger e (T : CType) (InArgs : list Val) (s : Exec World) :
      reachable e -> reachable (Trigger T e InArgs s).1.2
  | reach_TriggerComplex e (ContainerType : Type) (Default : ContainerType)
      (T : CType) (Adder : ContainerType -> Val -> ContainerType)
      (InArgs : list Val) (s : Exec World) :
      reachable e -> reachable (TriggerComplex Default T Adder e InArgs s).1.2.

(** The tests [InsertDelegate] searches the sequence with. *)
Definition lower_than (d : DelegatePtr) : DelegatePtr -> bool :=
  fun Data => (prio Data <? prio d)%Z.

Definition equal_to (d : DelegatePtr) : DelegatePtr -> bool :=
  fun Data => DelegateEq (Target Data) (Target d).

(** What holds of every connection the library builds, and is kept by
    moves and by [Disconnect]: a connection with an event holds the
    delegate pointer it was built with, and its event is alive. *)
Definition conn_ok (c : Connection) (h : Heap) : Prop :=
  forall a, Event c = Some a -> is_Some (Delegate c) /\ is_Some (h !! a).

Definition other_than (D : DelegatePtr) : DelegatePtr -> Prop :=
  fun x => Addr x <> Addr D.

#[global] Instance other_than_dec (D x : DelegatePtr) : Decision (other_than D x).
Proof. unfold other_than. apply _. Defined.

(** The managers reached from [m] by calls that change a manager, other
    than [BlockEvents]: [DeclareEvent] and [DestroyAll].  (Adding
    listeners, triggering and disconnecting change events in the store,
    not the manager.) *)
Inductive later_manager (m : Manager) : Manager -> Prop :=
  | later_now : later_manager m m
  | later_DeclareEvent (m1 : Manager) (ID : nat) (sig : Signature) (CanReplace : bool)
      (h : Heap) (ok : bool) (m2 : Manager) (h' : Heap) :
      later_manager m m1 ->
      DeclareEvent ID sig CanReplace m1 h = Returns (ok, m2, h') ->
      later_manager m m2
  | later_DestroyAll (m1 : Manager) :
      later_manager m m1 -> later_manager m (DestroyAll m1).
End Drivers.

(** ** [ScopedConnection]

    A [ScopedConnection] has the members of its base [Connection] and
    nothing else; what it adds is its own move assignment and a destructor
    that disconnects. *)

Section Scoped.
Context {Val World : Type} `{Factory : DelegateFactory Val World}.

(** [ScopedConnection(Connection&& conn)] and
    [ScopedConnection(ScopedConnection&& conn)]: both move-construct the
    base from [conn]. *)
Definition ScopedConnection_move (conn : Connection) : Connection * Connection :=
  Connection_move conn.

(** [ScopedConnection::operator=(ScopedConnection&& other)]: [Event] is
    moved, [Delegate] is copied, and [bActive] and [Error] are not
    assigned.  [This] and [other] afterwards. *)
Definition ScopedConnection_move_assign (This other : Connection)
    : Connection * Connection :=
  ({| Event := Event other; Delegate := Delegate other;
      bActive := bActive This; Error := Error This |},
   {| Event := None; Delegate := Delegate other;
      bActive := bActive other; Error := Error other |}).

(** [~ScopedConnection()]: [Connection::Disconnect()] on an object that
    is gone afterwards; the store is what remains. *)
Definition ScopedConnection_destroy (c : Connection) (h : Heap) : Outcome Heap :=
  obind (Disconnect c h) (fun r => Returns r.2).
End Scoped.

(** ** Pointers and stores as a run of the program has them *)

Section WellFormed.
Context {Val World : Type} `{Factory : DelegateFactory Val World}.

(** No delegate pointer is stored twice. *)
Definition distinct_addresses (l : list DelegatePtr) : Prop :=
  NoDup (map Addr l).

(** [a] is the address of no stored delegate, as the address
    [std::make_shared] returns is. *)
Definition fresh_address (a : nat) (l : list DelegatePtr) : Prop :=
  Forall (fun x => Addr x <> a) l.

(** Every occupied slot of the manager points to an event of the store. *)
Definition store_ok (m : Manager) (h : Heap) : Prop :=
  forall (ID : nat) (sig : Signature) (a : nat),
    Events m !! ID = Some (Some (sig, a)) -> a < length h.
End WellFormed.

(** ** A factory with comparable delegates

    [LEvent] takes any factory as its template parameter.  The repository
    ships [SimpleDelegateFactory] only, whose delegates never compare
    equal; this one is a client's factory that remembers which function a
    delegate was made from (its address, [Id]) and compares that.  It is
    used to exercise duplicate detection. *)
Module ComparableDelegateFactory.
Section Comparable.
Context (Val World : Type).

Record Delegate := {
  Id : nat;
  Callee : list Val -> World -> Val * World;
  Priority : Z
}.

Definition call (d : Delegate) (InArgs : list Val) (w : World) : Val * World :=
  Callee d InArgs w.

Definition eq (d Other : Delegate) : bool := Nat.eqb (Id d) (Id Other).

Definition MakeDelegate (InFunc : nat * (list Val -> World -> Val * World))
    (InPriority : Z) : Delegate :=
  {| Id := InFunc.1; Callee := InFunc.2; Priority := InPriority |}.
End Comparable.
End ComparableDelegateFactory.

Definition ComparableDelegateFactory (Val World : Type) : DelegateFactory Val World := {|
  DelegateType := ComparableDelegateFactory.Delegate Val World;
  CalleeForm := nat * (list Val -> World -> Val * World);
  MakeDelegate := ComparableDelegateFactory.MakeDelegate Val World;
  Priority := ComparableDelegateFactory.Priority Val World;
  Invoke := ComparableDelegateFactory.call Val World;
  DelegateEq := ComparableDelegateFactory.eq Val World
|}.

(** ** The listeners of [EventShowcase.cpp] *)

Module EventShowcase.
Inductive EListenerType := Free | Member | Callable.

Inductive Value :=
  | Str (s : string)
  | Listener (t : EListenerType)
  | Nothing.

(** What the listeners of the demo act on: the lines written to
    [std::cout] and the counter passed by reference. *)
Record State := {
  cout : list string;
  Counter : Z
}.

Definition print (tag : string) (InArgs : list Value) (w : State) : State :=
  match InArgs with
  | Str s :: _ => {| cout := cout w ++ [String.append tag s]; Counter := Counter w |}
  | _ => w
  end.

Definition FreeListener (InArgs : list Value) (w : State) : Value * State :=
  (Listener Free, print "[Free] " InArgs w).

Definition MemberListener (InArgs : list Value) (w : State) : Value * State :=
  (Listener Member, print "[Member] " InArgs w).

Definition LambdaListener (InArgs : list Value) (w : State) : Value * State :=
  (Listener Callable, print "[Lambda] " InArgs w).

Definition Functor (InArgs : list Value) (w : State) : Value * State :=
  (Listener Callable, print "[Functor] " InArgs w).

Definition StaticListener (InArgs : list Value) (w : State) : Value * State :=
  (Nothing, {| cout := cout w; Counter := Counter w + 1 |}).

Definition StringSignature : Signature :=
  {| ReturnType := Named "EListenerType"; Args := [Named "std::string_view"] |}.

Definition VoidSignature : Signature :=
  {| ReturnType := Void; Args := [Named "int&"] |}.

Definition start : Exec State :=
  {| world := {| cout := []; Counter := 0 |}; calls := [] |}.

(** [EEvents]: [String], [Void], [Test] and the terminal [Count]. *)
Definition String_ : nat := 0.
Definition Void_ : nat := 1.
Definition Test_ : nat := 2.
Definition Count : nat := 3.
End EventShowcase.

(** ** The events, connections and managers of [EventShowcase.cpp] *)

Module ShowcaseRuns.
Import EventShowcase.

Abbreviation Simple := (SimpleDelegateFactory Value State).

Definition listen (a : nat) (f : list Value -> State -> Value * State) (p : Z)
    (dups : bool) : AddCall (Factory := Simple) :=
  {| call_addr := a; call_callee := f; call_priority := p; call_dups := dups |}.

(** [SingleEventTest]: the free function with priority 2, the member
    function with priority 0 and the lambda with priority 1. *)
Definition SingleEventTest_listeners : list (AddCall (Factory := Simple)) :=
  [listen 1 FreeListener 2 false;
   listen 2 MemberListener 0 false;
   listen 3 LambdaListener 1 false].

Definition StringEvent : LEvent (Factory := Simple) :=
  (AddListeners LEvent_new SingleEventTest_listeners).2.

Definition FreeDelegate : DelegatePtr (Factory := Simple) :=
  make_shared 1 (MakeDelegate (FreeListener : CalleeForm) 2).
Definition MemberDelegate : DelegatePtr (Factory := Simple) :=
  make_shared 2 (MakeDelegate (MemberListener : CalleeForm) 0).
Definition LambdaDelegate : DelegatePtr (Factory := Simple) :=
  make_shared 3 (MakeDelegate (LambdaListener : CalleeForm) 1).

(** [std::set<EListenerType>] filled through [C.insert(V)]: the values
    without repetition. *)
Definition set_insert (C : list EListenerType) (V : Value) : list EListenerType :=
  match V with
  | Listener t =>
      if existsb (fun u => match t, u with
                           | Free, Free | Member, Member | Callable, Callable => true
                           | _, _ => false
                           end) C
      then C else C ++ [t]
  | _ => C
  end.

(** [EventMgrTest], first block: the string event is declared, three
    functors are added with priorities 0, 1 and 2, duplicates allowed, and
    the event is triggered into a set. *)
Definition declared : Outcome (Manager * list (LEvent (Factory := Simple))) :=
  obind (DeclareEvent String_ StringSignature false (Manager_new Count) [])
        (fun '(_, m, h) => Returns (m, h)).

Definition connected
    : Outcome (Manager * list (Connection (Factory := Simple)) * list (LEvent (Factory := Simple))) :=
  obind declared (fun '(m, h) =>
  obind (AddEventListener String_ StringSignature 10 (Functor : CalleeForm) 0 true m h)
        (fun '(Conn0, h) =>
  obind (AddEventListener String_ StringSignature 11 (Functor : CalleeForm) 1 true m h)
        (fun '(Conn1, h) =>
  obind (AddEventListener String_ StringSignature 12 (Functor : CalleeForm) 2 true m h)
        (fun '(Conn2, h) =>
  Returns (m, [Conn0; Conn1; Conn2], h))))).

Definition disconnect_all (cs : list (Connection (Factory := Simple)))
    (h : list (LEvent (Factory := Simple))) : Outcome (list (LEvent (Factory := Simple))) :=
  fold_left (fun o c => obind o (fun h => obind (Disconnect c h)
                                           (fun '(_, h') => Returns h')))
            cs (Returns h).

Abbreviation Comparable := (ComparableDelegateFactory Value State).

(** The free listener as a comparable factory sees it: the function and
    its address. *)
Definition FreeFunction : @CalleeForm _ _ Comparable := (7, FreeListener).

(** The string event of [SingleEventTest] seen from inside one of its
    listeners: the broadcast is running. *)
Definition Broadcasting : LEvent (Factory := Simple) :=
  set_bIsBroadcasting StringEvent true.

(** The connection to the lambda listener of that event, the event being
    at address 0 of the store. *)
Definition LambdaConnection : Connection (Factory := Simple) :=
  Connection_bound 0 LambdaDelegate.

(** The manager of [EventMgrTest] once the string event is declared. *)
Definition Declared : Manager :=
  {| Events := [Some (StringSignature, 0); None; None]; bEventsBlocked := false |}.
(** A functor with priority 5, added to the string event at address 4, as
    [AddEventListener] does it, and the connection returned for it. *)
Definition FunctorDelegate : DelegatePtr (Factory := Simple) :=
  make_shared 4 (MakeDelegate (Functor : @CalleeForm _ _ Simple) 5).

Definition WithFunctor : LEvent (Factory := Simple) :=
  (AddListener StringEvent 4 (Functor : @CalleeForm _ _ Simple) 5 true).2.

Definition FunctorConnection : Connection (Factory := Simple) :=
  Connection_bound 0 FunctorDelegate.
End ShowcaseRuns.

(** * Properties *)

(** ** [find_if], [insert] and [erase] *)

Section Iterators.
Context {A : Type} (pred : A -> bool).

Lemma find_if_le (l : list A) : find_if pred l <= length l.
Proof. induction l as [|x l IH]; simpl; [lia|]. destruct (pred x); lia. Qed.

Lemma find_if_before (l : list A) :
  Forall (fun x => pred x = false) (take (find_if pred l) l).
Proof.
  induction l as [|x l IH]; simpl; [constructor|].
  destruct (pred x) eqn:E; simpl; [constructor|].
  constructor; assumption.
Qed.

Lemma find_if_found (l : list A) :
  find_if pred l < length l ->
  exists x, l !! find_if pred l = Some x /\ pred x = true.
Proof.
  induction l as [|x l IH]; simpl; [lia|].
  destruct (pred x) eqn:E; simpl.
  - intros _. exists x. split; [reflexivity | assumption].
  - intros H. apply IH. lia.
Qed.

Lemma find_if_end (l : list A) :
  find_if pred l = length l <-> Forall (fun x => pred x = false) l.
Proof.
  induction l as [|x l IH]; simpl.
  - split; [constructor | reflexivity].
  - destruct (pred x) eqn:E.
    + split; [discriminate|]. intros H. inversion H; subst. congruence.
    + split.
      * intros H. constructor; [assumption|]. apply IH. lia.
      * intros H. inversion H; subst. f_equal. apply IH. assumption.
Qed.

Lemma find_if_none (l : list A) :
  Forall (fun x => pred x = false) l ->
  Nat.eqb (find_if pred l) (length l) = true.
Proof. intros H. apply Nat.eqb_eq, find_if_end, H. Qed.

Lemma find_if_some (l : list A) (x : A) :
  x ∈ l -> pred x = true ->
  Nat.eqb (find_if pred l) (length l) = false.
Proof.
  intros Hin Hp. apply Nat.eqb_neq. intros Heq.
  apply find_if_end in Heq. rewrite Forall_forall in Heq.
  specialize (Heq x Hin). congruence.
Qed.
End Iterators.

Lemma vector_insert_length {A} (it : nat) (x : A) (l : list A) :
  length (vector_insert it x l) = S (length l).
Proof.
  unfold vector_insert. rewrite length_app. simpl.
  rewrite length_take, length_drop. lia.
Qed.

Lemma vector_erase_filter {A} (P : A -> Prop) `{forall x, Decision (P x)}
    (it : nat) (x : A) (l : list A) :
  l !! it = Some x -> ~ P x ->
  filter P (vector_erase it l) = filter P l.
Proof.
  intros Hl HP. unfold vector_erase.
  rewrite <- (take_drop_middle l it x Hl) at 3.
  rewrite !filter_app, filter_cons_False by assumption. reflexivity.
Qed.

Lemma filter_none {A} (P : A -> Prop) `{forall x, Decision (P x)} (l : list A) :
  Forall (fun x => ~ P x) l -> filter P l = [].
Proof.
  induction 1 as [|x l Hx _ IH]; [reflexivity|].
  rewrite filter_cons_False by assumption. exact IH.
Qed.

(** ** The listener sequence is ordered by priority *)

Section Ordering.
Context {Val World : Type} `{Factory : DelegateFactory Val World}.
Implicit Types (e : LEvent) (d D : DelegatePtr) (l : list DelegatePtr).

(** Where [InsertDelegate] puts a delegate: everything before it has at
    least its priority, everything after it a strictly lower one. *)
Lemma insert_position l d :
  by_priority l ->
  Forall (fun x => (prio d <= prio x)%Z) (take (find_if (lower_than d) l) l) /\
  Forall (fun x => (prio x < prio d)%Z) (drop (find_if (lower_than d) l) l).
Proof.
  unfold by_priority. induction 1 as [|x l Hs IH Hx]; simpl.
  - split; constructor.
  - unfold lower_than at 1 3. destruct (Z.ltb_spec (prio x) (prio d)) as [Hlt|Hge]; simpl.
    + split; [constructor|]. constructor; [assumption|].
      eapply Forall_impl; [exact Hx|]. simpl. intros y Hy. lia.
    + destruct IH as [IH1 IH2]. split; [|assumption].
      constructor; assumption.
Qed.

Lemma by_priority_app l1 l2 :
  by_priority l1 -> by_priority l2 ->
  (forall x y, x ∈ l1 -> y ∈ l2 -> (prio y <= prio x)%Z) ->
  by_priority (l1 ++ l2).
Proof.
  unfold by_priority. intros H1 H2 H12.
  induction H1 as [|x l1 Hs IH Hx]; simpl; [assumption|].
  constructor.
  - apply IH. intros a b Ha Hb. apply H12; [by right | assumption].
  - apply Forall_app. split; [assumption|].
    apply Forall_forall. intros y Hy. apply H12; [by left | assumption].
Qed.

Lemma by_priority_take l n : by_priority l -> by_priority (take n l).
Proof.
  unfold by_priority. intros H. revert n.
  induction H as [|x l Hs IH Hx]; intros [|n]; simpl; try constructor.
  - apply IH.
  - apply Forall_take. assumption.
Qed.

Lemma by_priority_drop l n : by_priority l -> by_priority (drop n l).
Proof.
  unfold by_priority. intros H. revert n.
  induction H as [|x l Hs IH Hx]; intros [|n]; simpl; try constructor; auto.
Qed.

Lemma by_priority_erase l (it : nat) :
  by_priority l -> by_priority (vector_erase it l).
Proof.
  unfold by_priority, vector_erase. intros H. revert it.
  induction H as [|x l Hs IH Hx]; intros [|it]; simpl; try constructor; auto.
  apply Forall_app. split; [by apply Forall_take | by apply Forall_drop].
Qed.

Lemma vector_insert_sorted l d :
  by_priority l ->
  by_priority (vector_insert (find_if (lower_than d) l) d l).
Proof.
  intros Hs. destruct (insert_position l d Hs) as [Hbefore Hafter].
  unfold vector_insert. apply by_priority_app.
  - by apply by_priority_take.
  - constructor; [by apply by_priority_drop|].
    eapply Forall_impl; [exact Hafter|]. simpl. intros y Hy. lia.
  - intros x y Hx Hy. rewrite Forall_forall in Hbefore, Hafter.
    apply elem_of_cons in Hy as [->|Hy].
    + by apply Hbefore.
    + specialize (Hbefore x Hx). specialize (Hafter y Hy). lia.
Qed.

(** Among the delegates of one priority the new one comes last, and
    the others keep their order. *)
Lemma vector_insert_stable l d (k : Z) :
  by_priority l ->
  filter (fun x => prio x = k) (vector_insert (find_if (lower_than d) l) d l) =
  filter (fun x => prio x = k) l ++ filter (fun x => prio x = k) [d].
Proof.
  intros Hs. destruct (insert_position l d Hs) as [_ Hafter].
  unfold vector_insert. set (i := find_if (lower_than d) l) in *.
  rewrite <- (take_drop i l) at 3.
  change (d :: drop i l) with ([d] ++ drop i l).
  rewrite !filter_app.
  assert (Hnone : prio d = k -> filter (fun x => prio x = k) (drop i l) = []).
  { intros Hk. apply filter_none. eapply Forall_impl; [exact Hafter|].
    simpl. intros y Hy. lia. }
  destruct (decide (prio d = k)) as [Hk|Hk].
  - rewrite (Hnone Hk), !app_nil_r. reflexivity.
  - rewrite filter_singleton_False by assumption.
    rewrite app_nil_r. reflexivity.
Qed.
End Ordering.

(** ** Adding listeners *)

Section Adding.
Context {Val World : Type} `{Factory : DelegateFactory Val World}.
Implicit Types (e : LEvent) (d D : DelegatePtr) (l : list DelegatePtr).

(** What one [InsertDelegate] does: it refuses and changes nothing, or
    it stores the delegate at the position [insert_position] describes. *)
Lemma InsertDelegate_cases e d (AllowDuplicates : bool) :
  InsertDelegate e d AllowDuplicates = (false, e) \/
  InsertDelegate e d AllowDuplicates =
    (true, set_Delegates e
             (vector_insert (find_if (lower_than d) (Delegates e)) d (Delegates e))).
Proof.
  unfold InsertDelegate.
  destruct (if negb AllowDuplicates then _ else false); [left | right]; reflexivity.
Qed.

Lemma AddListener_cases e (a : nat) (f : CalleeForm) (p : Z) (dups : bool) :
  let d := make_shared a (MakeDelegate f p) in
  AddListener e a f p dups = (None, e) \/
  (bIsBroadcasting e = false /\
   AddListener e a f p dups =
     (Some d, set_Delegates e
                (vector_insert (find_if (lower_than d) (Delegates e)) d (Delegates e)))).
Proof.
  intros d. unfold AddListener. destruct (bIsBroadcasting e) eqn:Eb; [by left|].
  fold d. destruct (InsertDelegate_cases e d dups) as [-> | ->]; [by left | by right].
Qed.

Lemma AddListener_order e (a : nat) (f : CalleeForm) (p : Z) (dups : bool) :
  by_priority (Delegates e) ->
  by_priority (Delegates (AddListener e a f p dups).2) /\
  forall k : Z,
    filter (fun x => prio x = k) (Delegates (AddListener e a f p dups).2) =
    filter (fun x => prio x = k) (Delegates e) ++
    filter (fun x => prio x = k) (accepted [(AddListener e a f p dups).1]).
Proof.
  intros Hs.
  destruct (AddListener_cases e a f p dups) as [-> | [_ ->]]; simpl.
  - split; [assumption|]. intros k. by rewrite app_nil_r.
  - split; [by apply vector_insert_sorted|].
    intros k. by apply vector_insert_stable.
Qed.

Lemma accepted_cons (r : option DelegatePtr) (rs : list (option DelegatePtr)) :
  accepted (r :: rs) = accepted [r] ++ accepted rs.
Proof. unfold accepted. destruct r; reflexivity. Qed.

(** Any number of [AddListener] calls, on an event whose sequence is
    ordered: it stays ordered, and the delegates of each priority are the
    old ones followed by the new ones in the order of the calls. *)
Lemma AddListeners_order (cs : list AddCall) e :
  by_priority (Delegates e) ->
  by_priority (Delegates (AddListeners e cs).2) /\
  forall k : Z,
    filter (fun x => prio x = k) (Delegates (AddListeners e cs).2) =
    filter (fun x => prio x = k) (Delegates e) ++
    filter (fun x => prio x = k) (accepted (AddListeners e cs).1).
Proof.
  revert e. induction cs as [|c cs IH]; intros e Hs; cbn [AddListeners].
  - split; [assumption|]. intros k. simpl. by rewrite app_nil_r.
  - pose proof (AddListener_order e (call_addr c) (call_callee c)
                  (call_priority c) (call_dups c) Hs) as [Hs1 Hf1].
    destruct (AddListener e (call_addr c) (call_callee c)
                (call_priority c) (call_dups c)) as [r e1]; cbn [fst snd] in *.
    specialize (IH e1 Hs1) as [Hs2 Hf2].
    destruct (AddListeners e1 cs) as [rs e2]; cbn [fst snd] in *.
    split; [assumption|]. intros k.
    rewrite Hf2, Hf1, (accepted_cons r rs), filter_app, app_assoc. reflexivity.
Qed.
End Adding.

(** ** Broadcasting *)

Section Broadcasting.
Context {Val World : Type} `{Factory : DelegateFactory Val World}.
Implicit Types (e : LEvent) (d D : DelegatePtr) (l : list DelegatePtr) (s : Exec World).

Lemma run_listeners_length l (InArgs : list Val) (w : World) :
  length (run_listeners l InArgs w).1 = length l.
Proof.
  revert w. induction l as [|D l IH]; intros w; simpl; [reflexivity|].
  destruct (Invoke (Target D) InArgs w) as [r w1].
  specialize (IH w1). destruct (run_listeners l InArgs w1) as [rs w2].
  simpl in *. by rewrite IH.
Qed.

(** The collecting loop, over any part [l] of the sequence. *)
Lemma collect_loop {Container : Type} (Adder : Container -> Val -> Container)
    e (InArgs : list Val) l (Results : Container) s :
  fold_left (fun '(Results, s) D =>
               let '(r, s') := invoke e D InArgs s in (Adder Results r, s'))
            l (Results, s) =
  (fold_left Adder (run_listeners l InArgs (world s)).1 Results,
   {| world := (run_listeners l InArgs (world s)).2;
      calls := calls s ++ map (fun D => (Addr D, bIsBroadcasting e)) l |}).
Proof.
  revert Results s. induction l as [|D l IH]; intros Results s; simpl.
  - rewrite app_nil_r. by destruct s.
  - unfold invoke at 2.
    destruct (Invoke (Target D) InArgs (world s)) as [r w1].
    rewrite IH. simpl.
    destruct (run_listeners l InArgs w1) as [rs w2]. simpl.
    by rewrite <- app_assoc.
Qed.

(** The loop of the [void] branch. *)
Lemma call_loop e (InArgs : list Val) l s :
  fold_left (fun s D => (invoke e D InArgs s).2) l s =
  {| world := (run_listeners l InArgs (world s)).2;
     calls := calls s ++ map (fun D => (Addr D, bIsBroadcasting e)) l |}.
Proof.
  revert s. induction l as [|D l IH]; intros s; simpl.
  - rewrite app_nil_r. by destruct s.
  - unfold invoke at 2.
    destruct (Invoke (Target D) InArgs (world s)) as [r w1].
    rewrite IH. simpl.
    destruct (run_listeners l InArgs w1) as [rs w2]. simpl.
    by rewrite <- app_assoc.
Qed.

Lemma fold_push_back (rs acc : list Val) : fold_left push_back rs acc = acc ++ rs.
Proof.
  revert acc. induction rs as [|r rs IH]; intros acc; simpl.
  - by rewrite app_nil_r.
  - rewrite IH. unfold push_back. by rewrite <- app_assoc.
Qed.

Lemma broadcast_trace_lookup l (i : nat) D :
  l !! i = Some D -> broadcast_trace l !! i = Some (Addr D, true).
Proof.
  revert i. induction l as [|D0 l IH]; intros [|i] Hi; simpl in *;
    try discriminate.
  - by injection Hi as ->.
  - by apply IH.
Qed.

Lemma Trigger_eq (T : CType) e (InArgs : list Val) s :
  Trigger T e InArgs s =
  (if is_void T then None else Some (run_listeners (Delegates e) InArgs (world s)).1,
   {| Delegates := Delegates e; bIsBroadcasting := false |},
   {| world := (run_listeners (Delegates e) InArgs (world s)).2;
      calls := calls s ++ broadcast_trace (Delegates e) |}).
Proof.
  unfold Trigger, for_each_call, for_each_collect.
  destruct (is_void T).
  - rewrite call_loop. reflexivity.
  - rewrite collect_loop. rewrite fold_push_back. reflexivity.
Qed.

Lemma TriggerComplex_eq {Container : Type} (Default : Container) (T : CType)
    (Adder : Container -> Val -> Container) e (InArgs : list Val) s :
  TriggerComplex Default T Adder e InArgs s =
  (if is_void T then None
   else Some (fold_left Adder (run_listeners (Delegates e) InArgs (world s)).1 Default),
   {| Delegates := Delegates e; bIsBroadcasting := false |},
   {| world := (run_listeners (Delegates e) InArgs (world s)).2;
      calls := calls s ++ broadcast_trace (Delegates e) |}).
Proof.
  unfold TriggerComplex, for_each_call, for_each_collect.
  destruct (is_void T).
  - rewrite call_loop. reflexivity.
  - rewrite collect_loop. reflexivity.
Qed.
End Broadcasting.

Section Claims_Event.
Context {Val World : Type} `{Factory : DelegateFactory Val World}.
Implicit Types (e : LEvent) (d D : DelegatePtr) (l : list DelegatePtr) (s : Exec World).

(** The sequence of every event is ordered by priority, whatever was
    called on it. *)
Lemma reachable_by_priority e : reachable e -> by_priority (Delegates e).
Proof.
  induction 1 as [|e a f p dups _ IH|e D _ IH|e c e' _ IH Hrm|e _ IH
                  |e T InArgs s _ IH|e C Default T Adder InArgs s _ IH].
  - constructor.
  - by apply AddListener_order.
  - unfold RemoveListener. destruct (bIsBroadcasting e); [assumption|].
    cbn [snd]. destruct (negb _); [by apply by_priority_erase | assumption].
  - unfold RemoveListener_Connection in Hrm.
    destruct (bIsBroadcasting e); [by injection Hrm as <-|].
    destruct (Delegate c) as [D|]; [|discriminate]. injection Hrm as <-.
    destruct (negb _); [by apply by_priority_erase | assumption].
  - assumption.
  - by rewrite Trigger_eq.
  - by rewrite TriggerComplex_eq.
Qed.

(** C1.  Take an event [e0] in any state it can be in, and any sequence
    [cs] of [AddListener] calls on it.  Afterwards the stored sequence has
    non-increasing priorities, and for every priority [k] the stored
    delegates of priority [k] are those [e0] had, followed by the accepted
    ones in the order of the calls.  One more call [c] either stores
    nothing or puts its delegate after every entry of at least its priority
    and before every entry of strictly lower priority, at the position of
    the first strictly lower entry.  [Trigger] calls the stored delegates,
    each once, in the stored order. *)
Theorem AddListener_priority_order e0 (cs : list AddCall) (c : AddCall)
    (T : CType) (InArgs : list Val) s :
  reachable e0 ->
  let e := (AddListeners e0 cs).2 in
  let handles := (AddListeners e0 cs).1 in
  by_priority (Delegates e) /\
  (forall k : Z, filter (fun x => prio x = k) (Delegates e) =
                 filter (fun x => prio x = k) (Delegates e0) ++
                 filter (fun x => prio x = k) (accepted handles)) /\
  (let r := AddListener e (call_addr c) (call_callee c) (call_priority c) (call_dups c) in
   match r.1 with
   | None => r.2 = e
   | Some d =>
       d = make_shared (call_addr c) (MakeDelegate (call_callee c) (call_priority c)) /\
       exists l1 l2,
         Delegates e = l1 ++ l2 /\
         Delegates r.2 = l1 ++ d :: l2 /\
         Forall (fun x => (prio d <= prio x)%Z) l1 /\
         Forall (fun x => (prio x < prio d)%Z) l2 /\
         l1 = take (find_if (lower_than d) (Delegates e)) (Delegates e)
   end) /\
  calls (Trigger T e InArgs s).2 = calls s ++ broadcast_trace (Delegates e).
Proof.
  intros Hreach e handles.
  destruct (AddListeners_order cs e0 (reachable_by_priority e0 Hreach))
    as [Hsorted Hstable].
  fold e handles in Hsorted, Hstable.
  split; [exact Hsorted|]. split; [exact Hstable|]. split.
  - destruct (AddListener_cases e (call_addr c) (call_callee c)
                (call_priority c) (call_dups c)) as [-> | [_ ->]]; cbn.
    + reflexivity.
    + split; [reflexivity|].
      set (d := make_shared _ _).
      destruct (insert_position (Delegates e) d Hsorted) as [Hbefore Hafter].
      exists (take (find_if (lower_than d) (Delegates e)) (Delegates e)),
             (drop (find_if (lower_than d) (Delegates e)) (Delegates e)).
      rewrite take_drop. unfold vector_insert. auto.
  - rewrite Trigger_eq. reflexivity.
Qed.

(** C2.  [Trigger] calls every delegate of the sequence once, in stored
    order and with the broadcasting flag set; for a non-void signature it
    returns their return values in that order; the event is left with the
    same sequence and the flag cleared.  [TriggerComplex] does the same
    and hands the values to [Adder] in that order.  With no listener the
    result is the empty vector, no call is made, and nothing fails. *)
Theorem Trigger_broadcast (T : CType) e (InArgs : list Val) s :
  let rs := (run_listeners (Delegates e) InArgs (world s)).1 in
  let w := (run_listeners (Delegates e) InArgs (world s)).2 in
  Trigger T e InArgs s =
    (if is_void T then None else Some rs,
     {| Delegates := Delegates e; bIsBroadcasting := false |},
     {| world := w; calls := calls s ++ broadcast_trace (Delegates e) |}) /\
  (forall (Container : Type) (Default : Container)
          (Adder : Container -> Val -> Container),
     TriggerComplex Default T Adder e InArgs s =
       (if is_void T then None else Some (fold_left Adder rs Default),
        {| Delegates := Delegates e; bIsBroadcasting := false |},
        {| world := w; calls := calls s ++ broadcast_trace (Delegates e) |})) /\
  length rs = length (Delegates e) /\
  (forall i D, Delegates e !! i = Some D ->
     broadcast_trace (Delegates e) !! i = Some (Addr D, true) /\
     exists wi, rs !! i = Some (Invoke (Target D) InArgs wi).1) /\
  (Delegates e = [] ->
     Trigger T e InArgs s =
       (if is_void T then None else Some [],
        {| Delegates := []; bIsBroadcasting := false |}, s)).
Proof.
  intros rs w. split; [apply Trigger_eq|].
  split; [intros; apply TriggerComplex_eq|].
  split; [apply run_listeners_length|]. split.
  - intros i D Hi. split.
    + by apply broadcast_trace_lookup.
    + subst rs. clear w. revert i Hi. generalize (world s).
      induction (Delegates e) as [|D0 l IH]; intros w0 i Hi; [discriminate|].
      simpl. destruct (Invoke (Target D0) InArgs w0) as [r w1] eqn:E0.
      specialize (IH w1). destruct (run_listeners l InArgs w1) as [rs' w2].
      destruct i as [|i]; simpl in *.
      * injection Hi as <-. exists w0. by rewrite E0.
      * apply IH. assumption.
  - intros Hnil. rewrite Trigger_eq, Hnil. simpl.
    rewrite app_nil_r. by destruct s.
Qed.
End Claims_Event.

(** ** Duplicates and the broadcast guard *)

Section Claims_Guards.
Context {Val World : Type} `{Factory : DelegateFactory Val World}.
Implicit Types (e : LEvent) (d D : DelegatePtr) (l : list DelegatePtr).

(** [InsertDelegate] refuses exactly when duplicates are not allowed and
    some stored delegate equals the new one under the factory's
    [operator==]. *)
Lemma InsertDelegate_refuses e d (AllowDuplicates : bool) :
  (InsertDelegate e d AllowDuplicates).1 = false <->
  AllowDuplicates = false /\
  Exists (fun Data => equal_to d Data = true) (Delegates e).
Proof.
  unfold InsertDelegate. fold (equal_to d).
  destruct AllowDuplicates; simpl.
  - split; [discriminate | intros [? _]; discriminate].
  - destruct (Nat.eqb _ _) eqn:E; simpl.
    + apply Nat.eqb_eq, find_if_end in E. split; [discriminate|].
      intros [_ Hex]. apply Exists_exists in Hex as (x & Hx & Hp).
      rewrite Forall_forall in E. specialize (E x Hx). congruence.
    + split; [|reflexivity]. intros _. split; [reflexivity|].
      apply Nat.eqb_neq in E.
      pose proof (find_if_le (equal_to d) (Delegates e)) as Hle.
      destruct (find_if_found (equal_to d) (Delegates e)) as (x & Hx & Hp); [lia|].
      apply Exists_exists. exists x. split; [|assumption].
      eapply list_elem_of_lookup_2. exact Hx.
Qed.

Lemma InsertDelegate_refused_unchanged e d (AllowDuplicates : bool) :
  (InsertDelegate e d AllowDuplicates).1 = false ->
  InsertDelegate e d AllowDuplicates = (false, e).
Proof.
  destruct (InsertDelegate_cases e d AllowDuplicates) as [-> | ->];
    [reflexivity | discriminate].
Qed.

Lemma InsertDelegate_allowed e d :
  InsertDelegate e d true =
    (true, set_Delegates e
             (vector_insert (find_if (lower_than d) (Delegates e)) d (Delegates e))).
Proof. reflexivity. Qed.

(** C4.  While the broadcasting flag is set, [AddListener] returns null,
    [RemoveListener] on a delegate pointer reports
    [ModifyingCallbackListDuringBroadcast], [RemoveListener] on a
    connection just returns, and none of them changes the event. *)
Theorem broadcasting_refuses_changes e (a : nat) (f : CalleeForm) (p : Z)
    (dups : bool) d (Conn : Connection) :
  bIsBroadcasting e = true ->
  AddListener e a f p dups = (None, e) /\
  RemoveListener e d = (ModifyingCallbackListDuringBroadcast, e) /\
  RemoveListener_Connection e Conn = Returns e.
Proof.
  intros Hb. unfold AddListener, RemoveListener, RemoveListener_Connection.
  rewrite Hb. auto.
Qed.

(** C3, as amended.  Let the factory find a delegate made from callee
    [f] with priority [p] equal to another made the same way.  Adding it
    twice without allowing duplicates does not add the second: that call
    returns null and leaves the event as it was.  On an event that is not
    broadcasting, adding it twice with duplicates allowed stores both,
    each call raising the count by one.  A call is refused as a duplicate
    exactly when the factory's equality holds for some stored delegate. *)
Theorem AddListener_duplicates e (a1 a2 : nat) (f : CalleeForm) (p : Z) :
  DelegateEq (MakeDelegate f p) (MakeDelegate f p) = true ->
  (let e1 := (AddListener e a1 f p false).2 in
   AddListener e1 a2 f p false = (None, e1)) /\
  (bIsBroadcasting e = false ->
   let r1 := AddListener e a1 f p true in
   let r2 := AddListener r1.2 a2 f p true in
   r1.1 = Some (make_shared a1 (MakeDelegate f p)) /\
   r2.1 = Some (make_shared a2 (MakeDelegate f p)) /\
   length (Delegates r1.2) = S (length (Delegates e)) /\
   length (Delegates r2.2) = S (S (length (Delegates e)))) /\
  (forall d, (InsertDelegate e d false).1 = false <->
             Exists (fun Data => DelegateEq (Target Data) (Target d) = true)
                    (Delegates e)).
Proof.
  intros Hcmp. split; [|split].
  - destruct (AddListener_cases e a1 f p false) as [H1 | [Hb H1]];
      rewrite H1; cbn [snd].
    + (* the first call stored nothing: the second meets the same event *)
      unfold AddListener in H1 |- *.
      destruct (bIsBroadcasting e); [reflexivity|].
      destruct (InsertDelegate e (make_shared a1 (MakeDelegate f p)) false)
        as [[] e'] eqn:E1; [discriminate|].
      assert (Hr : (InsertDelegate e (make_shared a2 (MakeDelegate f p)) false).1
                   = false).
      { apply InsertDelegate_refuses. split; [reflexivity|].
        apply (InsertDelegate_refuses e (make_shared a1 (MakeDelegate f p)) false).
        by rewrite E1. }
      rewrite (InsertDelegate_refused_unchanged _ _ _ Hr). reflexivity.
    + set (d1 := make_shared a1 (MakeDelegate f p)).
      set (e1 := set_Delegates e _).
      unfold AddListener. change (bIsBroadcasting e1) with (bIsBroadcasting e).
      rewrite Hb.
      set (d2 := make_shared a2 (MakeDelegate f p)).
      assert (Hr : (InsertDelegate e1 d2 false).1 = false).
      { apply InsertDelegate_refuses. split; [reflexivity|].
        apply Exists_exists. exists d1. split; [|exact Hcmp].
        subst e1. simpl. unfold vector_insert.
        apply elem_of_app. right. by left. }
      rewrite (InsertDelegate_refused_unchanged _ _ _ Hr). reflexivity.
  - intros Hb. unfold AddListener. rewrite Hb, InsertDelegate_allowed.
    cbn [fst snd set_Delegates bIsBroadcasting]. rewrite Hb, InsertDelegate_allowed.
    cbn [fst snd set_Delegates Delegates].
    rewrite !vector_insert_length. auto.
  - intros d. rewrite InsertDelegate_refuses. fold (equal_to d). tauto.
Qed.
End Claims_Guards.

(** With [SimpleDelegateFactory], whose [operator==] always answers
    [false], nothing is ever refused as a duplicate. *)
Lemma SimpleDelegateFactory_never_refuses (V W : Type)
    (e : LEvent (Factory := SimpleDelegateFactory V W))
    (d : DelegatePtr (Factory := SimpleDelegateFactory V W))
    (AllowDuplicates : bool) :
  (InsertDelegate e d AllowDuplicates).1 = true.
Proof.
  destruct (InsertDelegate e d AllowDuplicates).1 eqn:E; [reflexivity|].
  apply InsertDelegate_refuses in E as [_ Hex].
  apply Exists_exists in Hex as (x & _ & Hx). discriminate.
Qed.

(** ** Connections *)

Section Claims_Connection.
Context {Val World : Type} `{Factory : DelegateFactory Val World}.
Implicit Types (e : LEvent) (d D : DelegatePtr) (l : list DelegatePtr)
               (c : Connection) (h : Heap) (s : Exec World).

Lemma conn_ok_error (InError : EError) h : conn_ok (Connection_error InError) h.
Proof. intros a. discriminate. Qed.

Lemma conn_ok_bound (a : nat) D h :
  is_Some (h !! a) -> conn_ok (Connection_bound a D) h.
Proof. intros Ha a' [= <-]. split; [by eexists | assumption]. Qed.

Lemma conn_ok_move c h :
  conn_ok c h ->
  conn_ok (Connection_move c).1 h /\ conn_ok (Connection_move c).2 h.
Proof. intros H. split; [exact H | intros a; discriminate]. Qed.

(** Erasing the first entry that is [D]: a found entry has [D]'s
    address, so the entries with other addresses stay, in their order. *)
Lemma erase_found_others D l :
  let FoundIt := find_if (fun Data => ptr_eqb Data D) l in
  Nat.eqb FoundIt (length l) = false ->
  filter (other_than D) (vector_erase FoundIt l) = filter (other_than D) l.
Proof.
  intros FoundIt Hne. apply Nat.eqb_neq in Hne.
  pose proof (find_if_le (fun Data => ptr_eqb Data D) l) as Hle.
  destruct (find_if_found (fun Data => ptr_eqb Data D) l) as (x & Hx & Hp);
    [fold FoundIt; lia|].
  apply (vector_erase_filter _ _ x); [exact Hx|].
  unfold other_than. apply Nat.eqb_eq in Hp. intros Hn. by apply Hn.
Qed.

Lemma absent_not_found D l :
  Forall (other_than D) l ->
  Nat.eqb (find_if (fun Data => ptr_eqb Data D) l) (length l) = true.
Proof.
  intros H. apply find_if_none. eapply Forall_impl; [exact H|].
  intros x Hx. apply Nat.eqb_neq. exact Hx.
Qed.

Lemma RemoveListener_Connection_spec e c D :
  Delegate c = Some D ->
  exists e',
    RemoveListener_Connection e c = Returns e' /\
    bIsBroadcasting e' = bIsBroadcasting e /\
    filter (other_than D) (Delegates e') = filter (other_than D) (Delegates e) /\
    (Forall (other_than D) (Delegates e) -> e' = e).
Proof.
  intros HD. unfold RemoveListener_Connection. rewrite HD.
  destruct (bIsBroadcasting e) eqn:Eb; [by exists e|].
  destruct (Nat.eqb _ _) eqn:E; simpl.
  - by exists e.
  - eexists. split; [reflexivity|]. split; [exact Eb|].
    split; [by apply erase_found_others|].
    intros Habs. rewrite absent_not_found in E by assumption. discriminate.
Qed.

(** [RemoveListener] on a delegate pointer that is not in the sequence
    changes nothing, and reports [OK] unless the event is broadcasting. *)
Lemma RemoveListener_absent e D :
  Forall (other_than D) (Delegates e) ->
  (RemoveListener e D).2 = e /\
  (bIsBroadcasting e = false -> (RemoveListener e D).1 = OK).
Proof.
  intros Habs. unfold RemoveListener.
  destruct (bIsBroadcasting e); [split; [reflexivity | discriminate]|].
  rewrite absent_not_found by assumption. split; reflexivity.
Qed.

(** C7.  For a connection as the library builds them, [Disconnect]
    returns (it neither throws nor leaves defined behaviour), leaving the
    connection inactive; a second [Disconnect] returns with the connection
    and the store exactly as the first left them.  Every event keeps its
    broadcasting flag and, in their order, all listeners other than the
    one the connection refers to; events other than the connection's own
    are untouched.  When the referenced delegate is not in its event's
    sequence, the store is unchanged.  When it is there, and the
    connection is active and the event not broadcasting, its first
    occurrence is erased. *)
Theorem Disconnect_idempotent c h :
  conn_ok c h ->
  exists h',
    Disconnect c h = Returns (set_bActive c false, h') /\
    Disconnect (set_bActive c false) h' = Returns (set_bActive c false, h') /\
    length h' = length h /\
    (forall a e, h !! a = Some e ->
       exists e', h' !! a = Some e' /\
         bIsBroadcasting e' = bIsBroadcasting e /\
         (Event c <> Some a -> e' = e) /\
         (forall D, Delegate c = Some D ->
            filter (other_than D) (Delegates e') =
            filter (other_than D) (Delegates e))) /\
    (forall a e D, Event c = Some a -> h !! a = Some e -> Delegate c = Some D ->
       Forall (other_than D) (Delegates e) -> h' = h) /\
    (forall a e D, Event c = Some a -> h !! a = Some e -> Delegate c = Some D ->
       bActive c = true -> bIsBroadcasting e = false ->
       D ∈ Delegates e ->
       exists e', h' !! a = Some e' /\
         Delegates e' =
         vector_erase (find_if (fun Data => ptr_eqb Data D) (Delegates e))
                      (Delegates e)).
Proof.
  intros Hok. unfold Disconnect at 1.
  destruct (Event c) as [a|] eqn:Ev; [destruct (bActive c) eqn:Ea|].
  - (* the connection asks its event to remove the delegate *)
    destruct (Hok a Ev) as [[D HD] [e He]]. rewrite He.
    destruct (RemoveListener_Connection_spec e c D HD)
      as (e' & Hrm & Hflag & Hothers & Habsent).
    rewrite Hrm. simpl.
    assert (Hlt : a < length h) by (eapply lookup_lt_Some; exact He).
    exists (<[a := e']> h). split; [reflexivity|].
    split; [unfold Disconnect; simpl; by rewrite Ev|].
    split; [apply length_insert|]. split; [|split].
    + intros a0 e0 H0. destruct (decide (a0 = a)) as [->|Hne].
      * rewrite He in H0. injection H0 as <-. exists e'.
        rewrite list_lookup_insert_eq by assumption.
        split; [reflexivity|]. split; [assumption|].
        split; [intros Hn; by destruct Hn|]. intros D' HD'.
        rewrite HD in HD'. injection HD' as <-. exact Hothers.
      * exists e0. rewrite list_lookup_insert_ne by congruence.
        split; [assumption|]. split; [reflexivity|]. split; [reflexivity|].
        reflexivity.
    + intros a0 e0 D0 [= <-] H0 HD0 Habs.
      rewrite He in H0. injection H0 as <-.
      rewrite HD in HD0. injection HD0 as <-.
      rewrite (Habsent Habs). by apply list_insert_id.
    + intros a0 e0 D0 [= <-] H0 HD0 _ Hb Hin.
      rewrite He in H0. injection H0 as <-.
      rewrite HD in HD0. injection HD0 as <-.
      exists e'. rewrite list_lookup_insert_eq by assumption.
      split; [reflexivity|].
      unfold RemoveListener_Connection in Hrm. rewrite Hb, HD in Hrm.
      rewrite (find_if_some _ _ D Hin) in Hrm by apply Nat.eqb_refl.
      simpl in Hrm. by injection Hrm as <-.
  - exists h. split; [reflexivity|].
    split; [unfold Disconnect; simpl; by rewrite Ev|].
    split; [reflexivity|]. split; [|split].
    + intros a0 e0 H0. exists e0. auto.
    + reflexivity.
    + intros a0 e0 D0 _ _ _ Hact. discriminate.
  - exists h. split; [reflexivity|].
    split; [unfold Disconnect; simpl; by rewrite Ev|].
    split; [reflexivity|]. split; [|split].
    + intros a0 e0 H0. exists e0. auto.
    + reflexivity.
    + intros a0 e0 D0 Hev. discriminate.
Qed.

Lemma Disconnect_inactive c h :
  bActive c = false -> Disconnect c h = Returns (set_bActive c false, h).
Proof. intros Ha. unfold Disconnect. rewrite Ha. by destruct (Event c). Qed.

Lemma Trigger_calls_member (T : CType) e (InArgs : list Val) s D :
  D ∈ Delegates e -> (Addr D, true) ∈ calls (Trigger T e InArgs s).2.
Proof.
  intros Hin. rewrite Trigger_eq. cbn [snd calls].
  apply elem_of_app. right. unfold broadcast_trace.
  apply list_elem_of_In, in_map_iff. exists D.
  split; [reflexivity | by apply list_elem_of_In].
Qed.

(** C9.  [Disconnect] on a connection whose event is broadcasting
    returns with the store unchanged, so the delegate is still in the
    sequence, and with the connection inactive.  From then on
    [Disconnect] through that connection changes no store, whatever the
    state of the event.  Every [Trigger] of an event that holds the
    delegate keeps it in the sequence and calls it. *)
Theorem Disconnect_during_broadcast c h (a : nat) e :
  Event c = Some a -> h !! a = Some e -> bIsBroadcasting e = true ->
  let c' := set_bActive c false in
  Disconnect c h = Returns (c', h) /\
  bActive c' = false /\
  Connection_bool c' = false /\
  (forall h2 : Heap, Disconnect c' h2 = Returns (c', h2)) /\
  (forall D e2 (T : CType) (InArgs : list Val) s,
     D ∈ Delegates e2 ->
     D ∈ Delegates (Trigger T e2 InArgs s).1.2 /\
     (Addr D, true) ∈ calls (Trigger T e2 InArgs s).2).
Proof.
  intros Ev He Hb c'. split; [|split; [|split; [|split]]].
  - unfold Disconnect. rewrite Ev, He.
    destruct (bActive c); [|reflexivity].
    unfold RemoveListener_Connection. rewrite Hb. simpl.
    by rewrite list_insert_id.
  - reflexivity.
  - unfold Connection_bool. simpl. apply andb_false_r.
  - intros h2. by apply Disconnect_inactive.
  - intros D e2 T InArgs s Hin. split.
    + by rewrite Trigger_eq.
    + by apply Trigger_calls_member.
Qed.

(** C10.  After a move construction or a move assignment from a
    connection that is active and holds no error, the connection moved
    from converts to [false], its event pointer being null, while
    [IsActive] still answers [true]: its [bActive] and [Error] are as
    before.  The connection moved to has taken over all four members. *)
Theorem moved_from_still_active (This Other : Connection) :
  bActive Other = true -> Error Other = OK ->
  let built := Connection_move Other in
  let assigned := Connection_move_assign This Other in
  built.1 = Other /\ assigned.1 = Other /\
  Event built.2 = None /\ Event assigned.2 = None /\
  Connection_bool built.2 = false /\ IsActive built.2 = true /\
  Connection_bool assigned.2 = false /\ IsActive assigned.2 = true /\
  bActive built.2 = bActive Other /\ Error built.2 = Error Other /\
  bActive assigned.2 = bActive Other /\ Error assigned.2 = Error Other.
Proof.
  intros Ha He. unfold Connection_move, Connection_move_assign, moved_from,
    Connection_bool, IsActive. cbn.
  rewrite Ha, He. destruct Other; cbn in *. subst. repeat split.
Qed.
End Claims_Connection.

(** ** The manager *)

Section Claims_Manager.
Context {Val World : Type} `{Factory : DelegateFactory Val World}.
Implicit Types (e : LEvent) (m : Manager) (h : Heap) (s : Exec World)
               (sig : Signature).

Lemma DeclareEvent_keeps_flag (ID : nat) sig (CanReplace : bool) m h
    (ok : bool) m' h' :
  DeclareEvent ID sig CanReplace m h = Returns (ok, m', h') ->
  bEventsBlocked m' = bEventsBlocked m.
Proof.
  unfold DeclareEvent. destruct (Events m !! ID) as [Slot|]; [|discriminate].
  destruct (CanReplace || negb (has_value Slot)); intros [= <- <- <-]; reflexivity.
Qed.

Lemma later_manager_keeps_flag m m' :
  later_manager m m' -> bEventsBlocked m' = bEventsBlocked m.
Proof.
  induction 1 as [|m1 ID sig CanReplace h ok m2 h' _ IH Hd|m1 _ IH].
  - reflexivity.
  - rewrite <- IH. eapply DeclareEvent_keeps_flag. exact Hd.
  - exact IH.
Qed.

Lemma TriggerEvent_blocked (ID : nat) sig (InArgs : list Val) m h s :
  ID < length (Events m) -> bEventsBlocked m = true ->
  TriggerEvent ID sig InArgs m h s = Returns (not_triggered sig EventsBlocked, h, s).
Proof.
  intros Hid Hb. unfold TriggerEvent, not_triggered.
  destruct (lookup_lt_is_Some_2 _ _ Hid) as [Slot ->].
  rewrite Hb. by destruct (is_void (ReturnType sig)).
Qed.

Lemma TriggerEventComplex_blocked {ContainerType : Type} (Default : ContainerType)
    (ID : nat) (ValueType : CType) (ArgTypes : list CType)
    (Adder : ContainerType -> Val -> ContainerType) (InArgs : list Val) m h s :
  ID < length (Events m) -> bEventsBlocked m = true ->
  TriggerEventComplex Default ID ValueType ArgTypes Adder InArgs m h s =
    Returns (MaybeResult Default EventsBlocked, h, s).
Proof.
  intros Hid Hb. unfold TriggerEventComplex.
  destruct (lookup_lt_is_Some_2 _ _ Hid) as [Slot ->].
  by rewrite Hb.
Qed.

Lemma TriggerEvent_unblocked_error (ID : nat) sig (InArgs : list Val) m h s out h' s' :
  bEventsBlocked m = false ->
  TriggerEvent ID sig InArgs m h s = Returns (out, h', s') ->
  output_error out <> EventsBlocked.
Proof.
  intros Hb. unfold TriggerEvent. rewrite Hb.
  destruct (Events m !! ID) as [Slot|]; [|discriminate].
  destruct (is_void (ReturnType sig));
    (destruct (slot_cast Slot sig) as [a|]; [|intros [= <- _ _]; discriminate]);
    (destruct (h !! a) as [e|]; [|discriminate]);
    destruct (Trigger (ReturnType sig) e InArgs s) as [[r e1] s1];
    intros [= <- _ _]; discriminate.
Qed.

(** The connections [AddEventListener] hands out satisfy [conn_ok]: an
    error connection has no event, a bound one holds the delegate just
    stored and points to the event it was stored in. *)
Lemma AddEventListener_conn_ok (ID : nat) sig (a : nat) (FuncPtr : CalleeForm)
    (p : Z) (dups : bool) m h (c : Connection) h' :
  AddEventListener ID sig a FuncPtr p dups m h = Returns (c, h') ->
  conn_ok c h'.
Proof.
  unfold AddEventListener.
  destruct (Events m !! ID) as [Slot|]; [|discriminate].
  destruct (slot_cast Slot sig) as [CastedSlot|];
    [|intros [= <- <-]; apply conn_ok_error].
  destruct (h !! CastedSlot) as [e|] eqn:He; [|discriminate].
  destruct (IsBroadcasting e); [intros [= <- <-]; apply conn_ok_error|].
  destruct (AddListener e a FuncPtr p dups) as [[d|] e'];
    intros [= <- <-]; [|apply conn_ok_error].
  apply conn_ok_bound. apply lookup_lt_is_Some_2. rewrite length_insert.
  eapply lookup_lt_Some. exact He.
Qed.

(** C5.  Let [m'] be any manager reached after [BlockEvents(true)] by
    calls other than [BlockEvents].  For every identifier below [Count],
    [TriggerEvent] and [TriggerEventComplex] return the [EventsBlocked]
    error, whatever the slot holds and whatever signature is asked for,
    and leave the store of events and the listeners' world and call trace
    as they were: no listener runs.  Once [BlockEvents(false)] is called,
    a trigger no longer answers [EventsBlocked]. *)
Theorem BlockEvents_blocks_every_trigger m m' (ID : nat) sig
    (InArgs : list Val) h s :
  later_manager (BlockEvents m true) m' ->
  ID < length (Events m') ->
  TriggerEvent ID sig InArgs m' h s =
    Returns (not_triggered sig EventsBlocked, h, s) /\
  (forall (ContainerType : Type) (Default : ContainerType) (ValueType : CType)
          (ArgTypes : list CType) (Adder : ContainerType -> Val -> ContainerType),
     TriggerEventComplex Default ID ValueType ArgTypes Adder InArgs m' h s =
       Returns (MaybeResult Default EventsBlocked, h, s)) /\
  (forall out h' s',
     TriggerEvent ID sig InArgs (BlockEvents m' false) h s = Returns (out, h', s') ->
     output_error out <> EventsBlocked).
Proof.
  intros Hlater Hid.
  assert (Hb : bEventsBlocked m' = true)
    by (rewrite (later_manager_keeps_flag _ _ Hlater); reflexivity).
  split; [by apply TriggerEvent_blocked|].
  split; [intros; by apply TriggerEventComplex_blocked|].
  intros out h' s'. by apply TriggerEvent_unblocked_error.
Qed.

(** C6, as amended.  While events are not blocked: for an identifier
    whose slot is empty, or holds an event declared with another
    signature than the one the caller names, [TriggerEvent] returns
    [FailedToMatchEventType], and leaves the store of events and the
    listeners' world and call trace as they were. *)
Theorem TriggerEvent_type_mismatch (ID : nat) sig (InArgs : list Val) m h s
    (Slot : Slot) :
  bEventsBlocked m = false ->
  Events m !! ID = Some Slot ->
  (Slot = None \/ exists stored a, Slot = Some (stored, a) /\ stored <> sig) ->
  TriggerEvent ID sig InArgs m h s =
    Returns (not_triggered sig FailedToMatchEventType, h, s).
Proof.
  intros Hb Hs Hmis. unfold TriggerEvent, not_triggered. rewrite Hs, Hb.
  assert (Hcast : slot_cast Slot sig = None).
  { destruct Hmis as [-> | (stored & a & -> & Hne)]; [reflexivity|].
    simpl. by rewrite bool_decide_eq_false_2. }
  rewrite Hcast. by destruct (is_void (ReturnType sig)).
Qed.

(** C8.  For an identifier below [Count]: when the slot is empty or
    [CanReplace] is set, [DeclareEvent] returns [true]; the slot then
    holds a new event of the given signature, with no listener and not
    broadcasting, at an address no event had before; the other slots, the
    block flag and the events already in the store are as before.  When
    the slot is occupied and [CanReplace] is not set, it returns [false]
    and changes nothing. *)
Theorem DeclareEvent_slot (ID : nat) sig (CanReplace : bool) m h (Slot : Slot) :
  Events m !! ID = Some Slot ->
  (CanReplace = true \/ Slot = None ->
   exists m' h',
     DeclareEvent ID sig CanReplace m h = Returns (true, m', h') /\
     Events m' !! ID = Some (Some (sig, length h)) /\
     h !! length h = None /\
     h' !! length h = Some LEvent_new /\
     (forall ID', ID' <> ID -> Events m' !! ID' = Events m !! ID') /\
     length (Events m') = length (Events m) /\
     bEventsBlocked m' = bEventsBlocked m /\
     (forall a e, h !! a = Some e -> h' !! a = Some e)) /\
  (CanReplace = false -> Slot <> None ->
   DeclareEvent ID sig CanReplace m h = Returns (false, m, h)).
Proof.
  intros Hs. unfold DeclareEvent. rewrite Hs. split.
  - intros Hgo.
    assert (Hc : CanReplace || negb (has_value Slot) = true).
    { destruct Hgo as [-> | ->]; [reflexivity | apply orb_true_r]. }
    rewrite Hc. eexists _, _. split; [reflexivity|]. cbn [Events bEventsBlocked].
    assert (Hlt : ID < length (Events m)) by (eapply lookup_lt_Some; exact Hs).
    split; [by apply list_lookup_insert_eq|].
    split; [by apply lookup_ge_None_2|].
    split; [by rewrite lookup_app_r, Nat.sub_diag|].
    split; [intros ID' Hne; by apply list_lookup_insert_ne|].
    split; [apply length_insert|]. split; [reflexivity|].
    intros a e Ha. by apply lookup_app_l_Some.
  - intros -> Hocc. destruct Slot as [x|]; [reflexivity | congruence].
Qed.
End Claims_Manager.

(** * The runs of [EventShowcase.cpp] *)

Module ShowcaseChecks.
Import EventShowcase ShowcaseRuns.

Example SingleEventTest_handles :
  (AddListeners LEvent_new SingleEventTest_listeners).1 =
  [Some FreeDelegate; Some MemberDelegate; Some LambdaDelegate].
Proof. reflexivity. Qed.

Example SingleEventTest_stored :
  Delegates StringEvent = [FreeDelegate; LambdaDelegate; MemberDelegate].
Proof. reflexivity. Qed.

Example SingleEventTest_first_trigger :
  let '(Results, e, s) :=
    Trigger (Named "EListenerType") StringEvent [Str "Event #1"] start in
  Results = Some [Listener Free; Listener Callable; Listener Member] /\
  cout (world s) = ["[Free] Event #1"; "[Lambda] Event #1"; "[Member] Event #1"] /\
  calls s = [(1, true); (3, true); (2, true)] /\
  e = StringEvent.
Proof. vm_compute. auto. Qed.

Example SingleEventTest_second_trigger :
  let '(Error, e) := RemoveListener StringEvent LambdaDelegate in
  Error = OK /\
  Delegates e = [FreeDelegate; MemberDelegate] /\
  (Trigger (Named "EListenerType") e [Str "Event #2"] start).1.1 =
    Some [Listener Free; Listener Member].
Proof. vm_compute. auto. Qed.

Example SingleEventTest_third_trigger :
  let e1 := (RemoveListener StringEvent LambdaDelegate).2 in
  let e2 := (RemoveListener e1 FreeDelegate).2 in
  let e3 := (RemoveListener e2 MemberDelegate).2 in
  Delegates e3 = [] /\
  (TriggerComplex [] (Named "EListenerType") set_insert e3 [Str "Event #3"] start).1.1 =
    Some [].
Proof. vm_compute. auto. Qed.

Example EventMgrTest_connected :
  exists m Conn0 Conn1 Conn2 e,
    connected = Returns (m, [Conn0; Conn1; Conn2], [e]) /\
    Connection_bool Conn0 && Connection_bool Conn1 && Connection_bool Conn2 = true /\
    Events m = [Some (StringSignature, 0); None; None] /\
    map Addr (Delegates e) = [12; 11; 10].
Proof. vm_compute. do 5 eexists. repeat split. Qed.

Example EventMgrTest_trigger_into_set :
  obind connected (fun '(m, _, h) =>
    TriggerEventComplex [] String_ (Named "EListenerType") [Named "std::string_view"]
      set_insert [Str "Managed Event #1"] m h start) =
  obind connected (fun '(_, _, h) =>
    Returns (MaybeResult [Callable] OK, h,
             {| world := {| cout := ["[Functor] Managed Event #1";
                                     "[Functor] Managed Event #1";
                                     "[Functor] Managed Event #1"];
                            Counter := 0 |};
                calls := [(12, true); (11, true); (10, true)] |})).
Proof. reflexivity. Qed.

Example EventMgrTest_all_disconnected :
  obind connected (fun '(m, cs, h) =>
    obind (disconnect_all cs h) (fun h =>
      TriggerEvent String_ StringSignature [Str "Error"] m h start)) =
  Returns (MaybeResult [] OK, [LEvent_new], start).
Proof. reflexivity. Qed.

(** The string event is declared again with [CanReplace] while the three
    connections are alive, and a functor is added to the new event: the
    connections disconnect from the old event, at address 0, and the new
    one, at address 1, keeps its listener. *)
Example EventMgrTest_disconnect_after_replace :
  obind connected (fun '(m, cs, h) =>
  obind (DeclareEvent String_ StringSignature true m h) (fun '(ok, m', h) =>
  obind (AddEventListener String_ StringSignature 30 (Functor : CalleeForm) 0 true m' h)
        (fun '(_, h) =>
  obind (disconnect_all cs h) (fun h' =>
  Returns (ok, Events m', map (fun e => map Addr (Delegates e)) h,
           map (fun e => map Addr (Delegates e)) h')))))
  = Returns (true, [Some (StringSignature, 1); None; None],
             [[12; 11; 10]; [30]], [[]; [30]]).
Proof. reflexivity. Qed.

(** [EventMgrTest], last block: the [void(int&)] event with the static
    listener added twice. *)
Example EventMgrTest_void :
  obind (DeclareEvent Void_ VoidSignature false (Manager_new Count) [])
    (fun '(_, m, h) =>
  obind (AddEventListener Void_ VoidSignature 20 (StaticListener : CalleeForm) 0 true m h)
    (fun '(Conn0, h) =>
  obind (AddEventListener Void_ VoidSignature 21 (StaticListener : CalleeForm) 0 true m h)
    (fun '(Conn1, h) =>
  obind (TriggerEvent Void_ VoidSignature [Nothing] m h start)
    (fun '(Result, _, s) =>
  Returns (Connection_bool Conn0 && Connection_bool Conn1, Result, Counter (world s))))))
  = Returns (true, ErrorOnly OK, 2%Z).
Proof. reflexivity. Qed.
End ShowcaseChecks.

(** * The theorems at concrete events, connections and managers *)

Import EventShowcase ShowcaseRuns.

Lemma AddListener_priority_order_witness :
  reachable (Factory := Simple) LEvent_new /\
  by_priority (Delegates StringEvent) /\
  (forall k : Z,
     filter (fun x => prio x = k) (Delegates StringEvent) =
     filter (fun x => prio x = k) [FreeDelegate; MemberDelegate; LambdaDelegate]) /\
  calls (Trigger (Named "EListenerType") StringEvent [Str "Event #1"] start).2 =
    [(1, true); (3, true); (2, true)].
Proof.
  split; [apply reach_new|].
  destruct (AddListener_priority_order (Factory := Simple) LEvent_new
              SingleEventTest_listeners (listen 4 Functor 1 true)
              (Named "EListenerType") [Str "Event #1"] start reach_new)
    as (Hsorted & Hstable & _ & Hcalls).
  split; [exact Hsorted|]. split; [exact Hstable | exact Hcalls].
Defined.

Lemma broadcasting_refuses_changes_witness :
  bIsBroadcasting Broadcasting = true /\
  AddListener Broadcasting 4 (Functor : @CalleeForm _ _ Simple) 5 true = (None, Broadcasting) /\
  RemoveListener Broadcasting LambdaDelegate =
    (ModifyingCallbackListDuringBroadcast, Broadcasting) /\
  RemoveListener_Connection Broadcasting LambdaConnection = Returns Broadcasting.
Proof.
  split; [reflexivity|].
  apply (broadcasting_refuses_changes Broadcasting 4 (Functor : @CalleeForm _ _ Simple) 5 true
           LambdaDelegate LambdaConnection).
  reflexivity.
Defined.

Lemma AddListener_duplicates_witness :
  DelegateEq (MakeDelegate FreeFunction 0) (MakeDelegate FreeFunction 0) = true /\
  bIsBroadcasting (LEvent_new (Factory := Comparable)) = false /\
  (let e1 := (AddListener LEvent_new 1 FreeFunction 0 false).2 in
   AddListener e1 2 FreeFunction 0 false = (None, e1)) /\
  (let r1 := AddListener LEvent_new 1 FreeFunction 0 true in
   let r2 := AddListener r1.2 2 FreeFunction 0 true in
   length (Delegates r1.2) = 1 /\ length (Delegates r2.2) = 2).
Proof.
  split; [reflexivity|]. split; [reflexivity|].
  destruct (AddListener_duplicates (Factory := Comparable) LEvent_new 1 2
              FreeFunction 0 eq_refl) as (Hfirst & Hboth & _).
  split; [exact Hfirst|].
  destruct (Hboth eq_refl) as (_ & _ & H1 & H2). split; [exact H1 | exact H2].
Defined.

(** C3 as stated fails on an event that is broadcasting.  [Listening] has
    one listener; while that listener runs, the same comparable callee
    added twice with duplicates allowed is stored neither time, and the
    count stays what it was. *)
Lemma AddListener_duplicates_allowed_during_broadcast :
  let Listening : LEvent (Factory := Comparable) :=
    (AddListener LEvent_new 1 FreeFunction 0 true).2 in
  let e := set_bIsBroadcasting Listening true in
  let r1 := AddListener e 2 FreeFunction 0 true in
  let r2 := AddListener r1.2 3 FreeFunction 0 true in
  DelegateEq (MakeDelegate FreeFunction 0) (MakeDelegate FreeFunction 0) = true /\
  reachable e /\
  length (Delegates e) = 1 /\
  r1.1 = None /\ r2.1 = None /\
  length (Delegates r2.2) = 1 /\
  ~ length (Delegates e) < length (Delegates r2.2).
Proof.
  cbn. split; [reflexivity|]. split.
  - apply (reach_broadcasting (Factory := Comparable)
             (AddListener LEvent_new 1 FreeFunction 0 true).2).
    apply reach_AddListener, reach_new.
  - repeat split. lia.
Qed.

Lemma Disconnect_idempotent_witness :
  conn_ok LambdaConnection [StringEvent] /\
  exists h',
    Disconnect LambdaConnection [StringEvent] =
      Returns (set_bActive LambdaConnection false, h') /\
    Disconnect (set_bActive LambdaConnection false) h' =
      Returns (set_bActive LambdaConnection false, h') /\
    length h' = 1.
Proof.
  assert (Hok : conn_ok LambdaConnection [StringEvent]).
  { intros a [= <-]. split; eexists; reflexivity. }
  split; [exact Hok|].
  destruct (Disconnect_idempotent LambdaConnection [StringEvent] Hok)
    as (h' & H1 & H2 & H3 & _).
  exists h'. split; [exact H1|]. split; [exact H2 | exact H3].
Defined.

Lemma Disconnect_during_broadcast_witness :
  Event LambdaConnection = Some 0 /\
  [Broadcasting] !! 0 = Some Broadcasting /\
  bIsBroadcasting Broadcasting = true /\
  Disconnect LambdaConnection [Broadcasting] =
    Returns (set_bActive LambdaConnection false, [Broadcasting]) /\
  (forall h2 : list (LEvent (Factory := Simple)),
     Disconnect (set_bActive LambdaConnection false) h2 =
       Returns (set_bActive LambdaConnection false, h2)).
Proof.
  split; [reflexivity|]. split; [reflexivity|]. split; [reflexivity|].
  destruct (Disconnect_during_broadcast LambdaConnection [Broadcasting] 0
              Broadcasting eq_refl eq_refl eq_refl) as (H1 & _ & _ & H4 & _).
  split; [exact H1 | exact H4].
Defined.

Lemma moved_from_still_active_witness :
  bActive LambdaConnection = true /\ Error LambdaConnection = OK /\
  Connection_bool (Connection_move LambdaConnection).2 = false /\
  IsActive (Connection_move LambdaConnection).2 = true /\
  Connection_bool
    (Connection_move_assign (Connection_error CallbackAlreadyAdded) LambdaConnection).2
    = false /\
  IsActive
    (Connection_move_assign (Connection_error CallbackAlreadyAdded) LambdaConnection).2
    = true.
Proof.
  split; [reflexivity|]. split; [reflexivity|].
  destruct (moved_from_still_active (Connection_error CallbackAlreadyAdded)
              LambdaConnection eq_refl eq_refl)
    as (_ & _ & _ & _ & H1 & H2 & H3 & H4 & _).
  split; [exact H1|]. split; [exact H2|]. split; [exact H3 | exact H4].
Defined.

Lemma BlockEvents_blocks_every_trigger_witness :
  later_manager (Factory := Simple) (BlockEvents (Manager_new Count) true)
                (BlockEvents Declared true) /\
  String_ < length (Events (BlockEvents Declared true)) /\
  TriggerEvent String_ StringSignature [Str "Managed Event #1"]
               (BlockEvents Declared true) [StringEvent] start =
    Returns (MaybeResult [] EventsBlocked, [StringEvent], start).
Proof.
  assert (Hlater : later_manager (Factory := Simple)
                     (BlockEvents (Manager_new Count) true)
                     (BlockEvents Declared true)).
  { apply (later_DeclareEvent _ (BlockEvents (Manager_new Count) true) String_
             StringSignature false [] true _ [LEvent_new]);
      [apply later_now | reflexivity]. }
  assert (Hid : String_ < length (Events (BlockEvents Declared true)))
    by (cbn; unfold String_; lia).
  split; [exact Hlater|]. split; [exact Hid|].
  exact (proj1 (BlockEvents_blocks_every_trigger (Manager_new Count)
                  (BlockEvents Declared true) String_ StringSignature
                  [Str "Managed Event #1"] [StringEvent] start Hlater Hid)).
Defined.

Lemma TriggerEvent_type_mismatch_witness :
  bEventsBlocked Declared = false /\
  Events Declared !! String_ = Some (Some (StringSignature, 0)) /\
  StringSignature <> VoidSignature /\
  TriggerEvent String_ VoidSignature [Nothing] Declared [StringEvent] start =
    Returns (ErrorOnly FailedToMatchEventType, [StringEvent], start).
Proof.
  split; [reflexivity|]. split; [reflexivity|].
  assert (Hne : StringSignature <> VoidSignature) by discriminate.
  split; [exact Hne|].
  apply (TriggerEvent_type_mismatch String_ VoidSignature [Nothing] Declared
           [StringEvent] start (Some (StringSignature, 0)) eq_refl eq_refl).
  right. exists StringSignature, 0. split; [reflexivity | exact Hne].
Defined.

(** C6 as stated fails while events are blocked: on an empty slot, and on
    a slot declared with another signature, [TriggerEvent] answers
    [EventsBlocked], not [FailedToMatchEventType]. *)
Lemma TriggerEvent_mismatch_while_blocked :
  let m := BlockEvents Declared true in
  Events m !! Void_ = Some None /\
  TriggerEvent Void_ StringSignature [Str "Error"] m [StringEvent] start =
    Returns (MaybeResult [] EventsBlocked, [StringEvent], start) /\
  TriggerEvent Void_ StringSignature [Str "Error"] m [StringEvent] start <>
    Returns (MaybeResult [] FailedToMatchEventType, [StringEvent], start) /\
  Events m !! String_ = Some (Some (StringSignature, 0)) /\
  StringSignature <> VoidSignature /\
  TriggerEvent String_ VoidSignature [Nothing] m [StringEvent] start =
    Returns (ErrorOnly EventsBlocked, [StringEvent], start) /\
  TriggerEvent String_ VoidSignature [Nothing] m [StringEvent] start <>
    Returns (ErrorOnly FailedToMatchEventType, [StringEvent], start).
Proof. cbn. repeat split; discriminate. Qed.

Lemma DeclareEvent_slot_witness :
  Events (Manager_new Count) !! String_ = Some None /\
  (exists m' h',
     DeclareEvent (Factory := Simple) String_ StringSignature false
                  (Manager_new Count) [] = Returns (true, m', h') /\
     Events m' !! String_ = Some (Some (StringSignature, 0)) /\
     h' !! 0 = Some LEvent_new).
Proof.
  split; [reflexivity|].
  destruct (DeclareEvent_slot (Factory := Simple) String_ StringSignature false
              (Manager_new Count) [] None eq_refl) as [Hnew _].
  destruct (Hnew (or_intror eq_refl)) as (m' & h' & H1 & H2 & _ & H4 & _).
  exists m', h'. split; [exact H1|]. split; [exact H2 | exact H4].
Defined.

(** * Further properties of events *)

Section More_Iterators.
Context {A : Type}.

Lemma find_if_app (pred : A -> bool) (l1 l2 : list A) :
  Forall (fun x => pred x = false) l1 ->
  find_if pred (l1 ++ l2) = length l1 + find_if pred l2.
Proof.
  induction 1 as [|x l1 Hx _ IH]; simpl; [reflexivity|].
  rewrite Hx, IH. reflexivity.
Qed.

Lemma vector_erase_middle (l1 l2 : list A) (x : A) :
  vector_erase (length l1) (l1 ++ x :: l2) = l1 ++ l2.
Proof.
  unfold vector_erase. rewrite take_app_length. f_equal.
  induction l1 as [|y l1 IH]; simpl; [reflexivity | exact IH].
Qed.

Lemma vector_erase_insert (it : nat) (x : A) (l : list A) :
  it <= length l -> vector_erase it (vector_insert it x l) = l.
Proof.
  intros Hle. unfold vector_insert.
  rewrite <- (length_take_le l it Hle) at 1.
  rewrite vector_erase_middle. apply take_drop.
Qed.

Lemma filter_all (P : A -> Prop) `{forall x, Decision (P x)} (l : list A) :
  Forall P l -> filter P l = l.
Proof.
  induction 1 as [|x l Hx _ IH]; [reflexivity|].
  rewrite filter_cons_True by assumption. by rewrite IH.
Qed.

Lemma StronglySorted_lookup (R : A -> A -> Prop) (l : list A) (i j : nat) (x y : A) :
  StronglySorted R l -> l !! i = Some x -> l !! j = Some y -> i < j -> R x y.
Proof.
  intros Hs. revert i j. induction Hs as [|z l _ IH Hz]; intros i j Hi Hj Hlt.
  - discriminate.
  - destruct j as [|j]; [lia|]. destruct i as [|i]; simpl in *.
    + injection Hi as <-. rewrite Forall_forall in Hz. apply Hz.
      eapply list_elem_of_lookup_2. exact Hj.
    + apply (IH i j); [assumption | assumption | lia].
Qed.
End More_Iterators.

Section More_Addresses.
Context {Val World : Type} `{Factory : DelegateFactory Val World}.
Implicit Types (e : LEvent) (d D : DelegatePtr) (l : list DelegatePtr).

Lemma fresh_address_map (a : nat) l : a ∉ map Addr l <-> fresh_address a l.
Proof.
  unfold fresh_address. induction l as [|x l IH]; simpl.
  - split; [constructor | intros _; apply not_elem_of_nil].
  - rewrite not_elem_of_cons, Forall_cons, IH. split; intros [H1 H2]; split; auto.
Qed.

Lemma distinct_cons d l :
  distinct_addresses (d :: l) <-> fresh_address (Addr d) l /\ distinct_addresses l.
Proof.
  unfold distinct_addresses. simpl. rewrite NoDup_cons, fresh_address_map. tauto.
Qed.

Lemma distinct_insert l1 l2 d :
  distinct_addresses (l1 ++ l2) -> fresh_address (Addr d) (l1 ++ l2) ->
  distinct_addresses (l1 ++ d :: l2).
Proof.
  induction l1 as [|x l1 IH]; simpl; intros Hd Hf.
  - apply distinct_cons. auto.
  - apply distinct_cons in Hd as [Hx Hd]. apply Forall_cons in Hf as [Hne Hf].
    apply distinct_cons. split; [|by apply IH].
    unfold fresh_address in *. apply Forall_app in Hx as [Hx1 Hx2].
    apply Forall_app. split; [assumption|]. constructor; [congruence | assumption].
Qed.

Lemma distinct_remove l1 l2 d :
  distinct_addresses (l1 ++ d :: l2) -> distinct_addresses (l1 ++ l2).
Proof.
  induction l1 as [|x l1 IH]; simpl; intros Hd.
  - by apply distinct_cons in Hd as [_ Hd].
  - apply distinct_cons in Hd as [Hx Hd]. apply distinct_cons.
    split; [|by apply IH].
    unfold fresh_address in *. apply Forall_app in Hx as [Hx1 Hx2].
    apply Forall_cons in Hx2 as [_ Hx2]. apply Forall_app. auto.
Qed.

Lemma distinct_erase l (it : nat) :
  distinct_addresses l -> distinct_addresses (vector_erase it l).
Proof.
  intros Hd. unfold vector_erase. destruct (l !! it) as [x|] eqn:Hx.
  - rewrite <- (take_drop_middle l it x Hx) in Hd. by apply distinct_remove in Hd.
  - apply lookup_ge_None in Hx.
    rewrite take_ge, drop_ge, app_nil_r by lia. assumption.
Qed.

(** With distinct addresses, erasing the first entry that is [D] leaves
    exactly the entries that are not [D]; so does finding none. *)
Lemma erase_first_is_filter D l :
  distinct_addresses l ->
  (if negb (Nat.eqb (find_if (fun Data => ptr_eqb Data D) l) (length l))
   then vector_erase (find_if (fun Data => ptr_eqb Data D) l) l
   else l) = filter (other_than D) l.
Proof.
  induction l as [|x l IH]; intros Hd; [reflexivity|].
  apply distinct_cons in Hd as [Hx Hd]. specialize (IH Hd). simpl.
  destruct (ptr_eqb x D) eqn:E; simpl.
  - apply Nat.eqb_eq in E.
    rewrite filter_cons_False by (unfold other_than; tauto).
    unfold vector_erase. simpl. symmetry. apply filter_all.
    eapply Forall_impl; [exact Hx|]. unfold other_than. intros y Hy. congruence.
  - apply Nat.eqb_neq in E.
    rewrite filter_cons_True by exact E. rewrite <- IH.
    destruct (Nat.eqb _ _); reflexivity.
Qed.
End More_Addresses.

Section More_Event.
Context {Val World : Type} `{Factory : DelegateFactory Val World}.
Implicit Types (e : LEvent) (d D : DelegatePtr) (l : list DelegatePtr) (s : Exec World).

Lemma set_Delegates_same e : set_Delegates e (Delegates e) = e.
Proof. by destruct e. Qed.

(** X1.  Outside a broadcast, [RemoveListener] on a delegate pointer reports
    [OK] and leaves exactly the listeners other than that one, in their
    order, whether or not it was there; the next [Trigger] calls those and
    no other. *)
Theorem RemoveListener_removes_exactly e D (T : CType) (InArgs : list Val) s :
  bIsBroadcasting e = false ->
  distinct_addresses (Delegates e) ->
  let e' := set_Delegates e (filter (other_than D) (Delegates e)) in
  RemoveListener e D = (OK, e') /\
  Forall (other_than D) (Delegates e') /\
  ((Addr D, true) ∉ broadcast_trace (Delegates e')) /\
  calls (Trigger T e' InArgs s).2 =
    calls s ++ broadcast_trace (filter (other_than D) (Delegates e)).
Proof.
  intros Hb Hd e'. split; [|split; [|split]].
  - unfold RemoveListener. rewrite Hb. f_equal. subst e'.
    rewrite <- (erase_first_is_filter D (Delegates e) Hd).
    destruct (negb _); [reflexivity | by rewrite set_Delegates_same].
  - apply Forall_forall. intros x Hx. by apply list_elem_of_filter in Hx as [Hx _].
  - intros Hin. apply list_elem_of_In, in_map_iff in Hin as (x & Hx & Hin).
    apply list_elem_of_In, list_elem_of_filter in Hin as [Hne _].
    injection Hx as Hx. by apply Hne.
  - rewrite Trigger_eq. reflexivity.
Qed.

Lemma AddListener_undo e (a : nat) (f : CalleeForm) (p : Z) (dups : bool) d e1 :
  fresh_address a (Delegates e) ->
  AddListener e a f p dups = (Some d, e1) ->
  RemoveListener e1 d = (OK, e).
Proof.
  intros Hfresh Hadd.
  destruct (AddListener_cases e a f p dups) as [Hc | [Hb Hc]];
    rewrite Hc in Hadd; [discriminate|].
  injection Hadd as <- <-. set (d := make_shared a (MakeDelegate f p)).
  set (i := find_if (lower_than d) (Delegates e)).
  assert (Hi : i <= length (Delegates e)) by apply find_if_le.
  assert (Hfound : find_if (fun Data => ptr_eqb Data d)
                     (vector_insert i d (Delegates e)) = i).
  { unfold vector_insert. rewrite find_if_app.
    - simpl. unfold ptr_eqb at 1. rewrite Nat.eqb_refl.
      rewrite length_take_le by assumption. lia.
    - apply Forall_take. eapply Forall_impl; [exact Hfresh|].
      intros x Hx. by apply Nat.eqb_neq. }
  unfold RemoveListener. cbn [bIsBroadcasting set_Delegates Delegates].
  rewrite Hb, Hfound, vector_insert_length.
  replace (Nat.eqb i (S (length (Delegates e)))) with false
    by (symmetry; apply Nat.eqb_neq; lia).
  cbn [negb]. rewrite vector_erase_insert by assumption.
  f_equal. by destruct e.
Qed.

(** X2.  An [AddListener] that stored its delegate is undone by
    [RemoveListener] on the handle it returned: the event is exactly what
    it was before, and so is what [Trigger] does. *)
Theorem AddListener_RemoveListener e (a : nat) (f : CalleeForm) (p : Z)
    (dups : bool) d e1 (T : CType) (InArgs : list Val) s :
  fresh_address a (Delegates e) ->
  AddListener e a f p dups = (Some d, e1) ->
  d ∈ Delegates e1 /\
  RemoveListener e1 d = (OK, e) /\
  Trigger T (RemoveListener e1 d).2 InArgs s = Trigger T e InArgs s.
Proof.
  intros Hfresh Hadd.
  pose proof (AddListener_undo e a f p dups d e1 Hfresh Hadd) as Hundo.
  split; [|split; [exact Hundo | by rewrite Hundo]].
  destruct (AddListener_cases e a f p dups) as [Hc | [_ Hc]];
    rewrite Hc in Hadd; [discriminate|].
  injection Hadd as <- <-. cbn [Delegates set_Delegates]. unfold vector_insert.
  apply elem_of_app. right. by left.
Qed.

(** X3.  No delegate pointer is ever stored twice: [AddListener] with the
    address of a new object, [RemoveListener] and [Trigger] all keep the
    stored addresses distinct. *)
Theorem distinct_addresses_kept e (a : nat) (f : CalleeForm) (p : Z) (dups : bool)
    D (T : CType) (InArgs : list Val) s :
  distinct_addresses (Delegates e) ->
  (fresh_address a (Delegates e) ->
   distinct_addresses (Delegates (AddListener e a f p dups).2)) /\
  distinct_addresses (Delegates (RemoveListener e D).2) /\
  distinct_addresses (Delegates (Trigger T e InArgs s).1.2).
Proof.
  intros Hd. split; [|split].
  - intros Hfresh.
    destruct (AddListener_cases e a f p dups) as [-> | [_ ->]]; [assumption|].
    cbn [snd set_Delegates Delegates]. unfold vector_insert.
    apply distinct_insert; rewrite take_drop; assumption.
  - unfold RemoveListener. destruct (bIsBroadcasting e); [assumption|].
    cbn [snd]. destruct (negb _); [by apply distinct_erase | assumption].
  - by rewrite Trigger_eq.
Qed.

(** X4.  The order of the calls follows the priorities in every state of an
    event: of two stored listeners, the one with the strictly higher
    priority is stored, and called by [Trigger], before the other. *)
Theorem higher_priority_called_first e (i j : nat) Di Dj (T : CType)
    (InArgs : list Val) s :
  reachable e ->
  Delegates e !! i = Some Di -> Delegates e !! j = Some Dj ->
  (prio Dj < prio Di)%Z ->
  i < j /\
  calls (Trigger T e InArgs s).2 !! (length (calls s) + i) = Some (Addr Di, true) /\
  calls (Trigger T e InArgs s).2 !! (length (calls s) + j) = Some (Addr Dj, true).
Proof.
  intros Hreach Hi Hj Hlt. split; [|split].
  - destruct (Nat.lt_trichotomy i j) as [H|[H|H]]; [assumption| |].
    + subst j. rewrite Hi in Hj. injection Hj as ->. lia.
    + pose proof (StronglySorted_lookup _ _ j i Dj Di
                    (reachable_by_priority e Hreach) Hj Hi H) as Hle.
      simpl in Hle. lia.
  - rewrite Trigger_eq. cbn [snd calls].
    rewrite lookup_app_r, Nat.add_comm, Nat.add_sub by lia.
    by apply broadcast_trace_lookup.
  - rewrite Trigger_eq. cbn [snd calls].
    rewrite lookup_app_r, Nat.add_comm, Nat.add_sub by lia.
    by apply broadcast_trace_lookup.
Qed.

(** X5.  [Trigger] ends by clearing the broadcasting flag whatever it was on
    entry.  A [Trigger] of an event that is not broadcasting returns the
    event unchanged.  A [Trigger] started while the event is already
    broadcasting leaves the flag cleared, and [AddListener] is then no
    longer refused although the outer broadcast has not ended. *)
Theorem Trigger_clears_flag_set_on_entry (T : CType) e (InArgs : list Val) s
    (a : nat) (f : CalleeForm) (p : Z) :
  let e' := (Trigger T e InArgs s).1.2 in
  e' = set_bIsBroadcasting e false /\
  (bIsBroadcasting e = false -> e' = e) /\
  (bIsBroadcasting e = true ->
   (AddListener e a f p true).1 = None /\
   (AddListener e' a f p true).1 = Some (make_shared a (MakeDelegate f p)) /\
   length (Delegates (AddListener e' a f p true).2) = S (length (Delegates e))).
Proof.
  intros e'. assert (He' : e' = set_bIsBroadcasting e false)
    by (subst e'; by rewrite Trigger_eq).
  split; [exact He'|]. split.
  - intros Hb. rewrite He'. destruct e; simpl in *. by subst.
  - intros Hb. rewrite He'. unfold AddListener. rewrite Hb.
    cbn [bIsBroadcasting set_bIsBroadcasting]. rewrite InsertDelegate_allowed.
    cbn [fst snd set_Delegates Delegates set_bIsBroadcasting].
    rewrite vector_insert_length. auto.
Qed.
End More_Event.

(** X6.  With [SimpleDelegateFactory], [AddListener] outside a broadcast always
    stores its delegate, with or without [AllowDuplicates]: the same
    function added twice is stored twice. *)
Theorem SimpleDelegateFactory_stores_duplicates (V W : Type)
    (e : LEvent (Factory := SimpleDelegateFactory V W)) (a1 a2 : nat)
    (f : @CalleeForm _ _ (SimpleDelegateFactory V W)) (p : Z) (dups : bool) :
  bIsBroadcasting e = false ->
  let r1 := AddListener e a1 f p dups in
  let r2 := AddListener r1.2 a2 f p dups in
  r1.1 = Some (make_shared a1 (MakeDelegate f p)) /\
  r2.1 = Some (make_shared a2 (MakeDelegate f p)) /\
  length (Delegates r2.2) = S (S (length (Delegates e))).
Proof.
  intros Hb.
  assert (Hstore : forall (e0 : LEvent (Factory := SimpleDelegateFactory V W)) a,
            bIsBroadcasting e0 = false ->
            AddListener e0 a f p dups =
              (Some (make_shared a (MakeDelegate f p)),
               set_Delegates e0
                 (vector_insert
                    (find_if (lower_than (make_shared a (MakeDelegate f p)))
                             (Delegates e0))
                    (make_shared a (MakeDelegate f p)) (Delegates e0)))).
  { intros e0 a Hb0. unfold AddListener. rewrite Hb0.
    pose proof (SimpleDelegateFactory_never_refuses V W e0
                  (make_shared a (MakeDelegate f p)) dups) as Hok.
    destruct (InsertDelegate_cases e0
                (make_shared a (MakeDelegate f p)) dups) as [Hc|Hc];
      rewrite Hc in Hok |- *; [discriminate | reflexivity]. }
  intros r1 r2. subst r1 r2. rewrite (Hstore e a1 Hb). cbn [fst snd].
  rewrite Hstore by exact Hb. cbn [fst snd set_Delegates Delegates].
  rewrite !vector_insert_length. auto.
Qed.

(** * Further properties of connections *)

Section More_Connection.
Context {Val World : Type} `{Factory : DelegateFactory Val World}.
Implicit Types (e : LEvent) (d D : DelegatePtr) (l : list DelegatePtr)
               (c : Connection) (h : Heap) (s : Exec World).

(** What a [Disconnect] that returns has done: nothing to the store, or
    the removal from the connection's own event. *)
Lemma Disconnect_returns c h c' h' :
  Disconnect c h = Returns (c', h') ->
  c' = set_bActive c false /\
  (h' = h \/
   exists (a : nat) e D,
     Event c = Some a /\ bActive c = true /\ h !! a = Some e /\
     Delegate c = Some D /\ bIsBroadcasting e = false /\
     h' = <[a := (RemoveListener e D).2]> h).
Proof.
  unfold Disconnect. destruct (Event c) as [a|] eqn:Ev;
    [|intros [= <- <-]; auto].
  destruct (bActive c) eqn:Ea; [|intros [= <- <-]; auto].
  destruct (h !! a) as [e|] eqn:He; [|discriminate].
  unfold RemoveListener_Connection.
  destruct (bIsBroadcasting e) eqn:Eb; simpl.
  - intros [= <- <-]. split; [reflexivity|]. left. by apply list_insert_id.
  - destruct (Delegate c) as [D|] eqn:ED; simpl; [|discriminate].
    intros [= <- <-]. split; [reflexivity|]. right.
    exists a, e, D. unfold RemoveListener. rewrite Eb. auto 10.
Qed.

Lemma RemoveListener_keeps_others e D D0 :
  Addr D0 <> Addr D -> D0 ∈ Delegates e -> D0 ∈ Delegates (RemoveListener e D).2.
Proof.
  intros Hne Hin. unfold RemoveListener.
  destruct (bIsBroadcasting e); [assumption|]. cbn [snd].
  destruct (negb _) eqn:E; [|assumption]. cbn [Delegates set_Delegates].
  apply negb_true_iff in E.
  assert (Hin' : D0 ∈ filter (other_than D) (Delegates e))
    by (apply list_elem_of_filter; split; assumption).
  rewrite <- (erase_found_others D (Delegates e) E) in Hin'.
  by apply list_elem_of_filter in Hin' as [_ Hin'].
Qed.

Lemma Disconnect_keeps_others c h c' h' (a : nat) e D0 :
  Disconnect c h = Returns (c', h') ->
  h !! a = Some e -> D0 ∈ Delegates e ->
  (forall D, Delegate c = Some D -> Addr D0 <> Addr D) ->
  exists e', h' !! a = Some e' /\ D0 ∈ Delegates e'.
Proof.
  intros Hd He Hin Hother.
  destruct (Disconnect_returns c h c' h' Hd)
    as [_ [-> | (a1 & e1 & D & Ev & _ & He1 & HD & _ & ->)]]; [by exists e|].
  destruct (decide (a1 = a)) as [->|Hne].
  - rewrite He in He1. injection He1 as <-.
    eexists. split; [apply list_lookup_insert_eq; by eapply lookup_lt_Some|].
    apply RemoveListener_keeps_others; [by apply Hother | assumption].
  - exists e. by rewrite list_lookup_insert_ne.
Qed.

Lemma Disconnect_active_erases c h (a : nat) e D :
  Event c = Some a -> Delegate c = Some D -> bActive c = true ->
  h !! a = Some e -> bIsBroadcasting e = false ->
  distinct_addresses (Delegates e) ->
  Disconnect c h =
    Returns (set_bActive c false,
             <[a := set_Delegates e (filter (other_than D) (Delegates e))]> h).
Proof.
  intros Ev HD Ha He Hb Hd.
  unfold Disconnect. rewrite Ev, Ha, He. unfold RemoveListener_Connection.
  rewrite Hb, HD. cbn [obind]. do 3 f_equal.
  rewrite <- (erase_first_is_filter D (Delegates e) Hd).
  destruct (negb _); [reflexivity | by rewrite set_Delegates_same].
Qed.

(** X7.  After [Disconnect] through an active connection, outside a broadcast,
    the event holds exactly the listeners other than the connection's, in
    their order, and the next [Trigger] does not call the disconnected
    one. *)
Theorem Disconnect_removes_listener c h (a : nat) e D (T : CType)
    (InArgs : list Val) s :
  Event c = Some a -> Delegate c = Some D -> bActive c = true ->
  h !! a = Some e -> bIsBroadcasting e = false ->
  distinct_addresses (Delegates e) ->
  let e' := set_Delegates e (filter (other_than D) (Delegates e)) in
  Disconnect c h = Returns (set_bActive c false, <[a := e']> h) /\
  <[a := e']> h !! a = Some e' /\
  ((Addr D, true) ∉ calls (Trigger T e' InArgs {| world := world s; calls := [] |}).2) /\
  calls (Trigger T e' InArgs s).2 =
    calls s ++ broadcast_trace (filter (other_than D) (Delegates e)).
Proof.
  intros Ev HD Ha He Hb Hd e'. split; [|split; [|split]].
  - by apply Disconnect_active_erases.
  - apply list_lookup_insert_eq. by eapply lookup_lt_Some.
  - rewrite Trigger_eq. cbn [snd calls app set_Delegates Delegates].
    intros Hin. apply list_elem_of_In, in_map_iff in Hin as (x & Hx & Hin).
    apply list_elem_of_In, list_elem_of_filter in Hin as [Hne _].
    injection Hx as Hx. by apply Hne.
  - rewrite Trigger_eq. reflexivity.
Qed.

(** X8.  Moving a connection into a [ScopedConnection] (or one
    [ScopedConnection] into another) hands the subscription over.  The
    object moved from converts to [false], and destroying it changes no
    store, so the listener stays.  Destroying the object moved to removes
    the listener from its event.  Whichever of the two is destroyed first,
    the store ends up the same. *)
Theorem ScopedConnection_move_hands_over c h (a : nat) e D :
  Event c = Some a -> Delegate c = Some D -> bActive c = true ->
  h !! a = Some e -> bIsBroadcasting e = false ->
  distinct_addresses (Delegates e) ->
  let sc := (ScopedConnection_move c).1 in
  let c' := (ScopedConnection_move c).2 in
  let h' := <[a := set_Delegates e (filter (other_than D) (Delegates e))]> h in
  Connection_bool sc = true /\
  Connection_bool c' = false /\
  (forall h0 : Heap, ScopedConnection_destroy c' h0 = Returns h0) /\
  ScopedConnection_destroy sc h = Returns h' /\
  obind (ScopedConnection_destroy c' h) (fun h1 => ScopedConnection_destroy sc h1) =
    Returns h' /\
  obind (ScopedConnection_destroy sc h) (fun h1 => ScopedConnection_destroy c' h1) =
    Returns h'.
Proof.
  intros Ev HD Ha He Hb Hd sc c' h'.
  assert (Hsc : sc = c) by (subst sc; by destruct c).
  assert (Hc' : forall h0 : Heap, ScopedConnection_destroy c' h0 = Returns h0)
    by reflexivity.
  assert (Hdestroy : ScopedConnection_destroy sc h = Returns h').
  { rewrite Hsc. unfold ScopedConnection_destroy.
    by rewrite (Disconnect_active_erases c h a e D). }
  split; [rewrite Hsc; unfold Connection_bool; rewrite Ev, Ha; reflexivity|].
  split; [reflexivity|]. split; [exact Hc'|]. split; [exact Hdestroy|].
  rewrite Hc', Hdestroy. cbn [obind]. rewrite Hc'. auto.
Qed.

(** X9.  The move assignment of [ScopedConnection] takes over the event and
    the delegate of [other] but keeps the [bActive] and [Error] it had.
    [other] is left without an event, so destroying it changes no store.
    If [This] had been disconnected before, it stays inactive: it converts
    to [false], and destroying it changes no store, so the listener it took
    over is never removed through it.  Whatever [This] was, destroying it
    afterwards removes no listener other than [other]'s: the one [This]
    referred to before the assignment stays where it is. *)
Theorem ScopedConnection_move_assign_keeps_flag (This other : Connection) :
  let This' := (ScopedConnection_move_assign This other).1 in
  let other' := (ScopedConnection_move_assign This other).2 in
  Event This' = Event other /\ Delegate This' = Delegate other /\
  bActive This' = bActive This /\ Error This' = Error This /\
  (forall h : Heap, ScopedConnection_destroy other' h = Returns h) /\
  (bActive This = false ->
   Connection_bool This' = false /\
   forall h : Heap, ScopedConnection_destroy This' h = Returns h) /\
  (forall (h h' : Heap) (a : nat) e D0,
     ScopedConnection_destroy This' h = Returns h' ->
     h !! a = Some e -> D0 ∈ Delegates e ->
     (forall D, Delegate other = Some D -> Addr D0 <> Addr D) ->
     exists e', h' !! a = Some e' /\ D0 ∈ Delegates e').
Proof.
  intros This' other'. repeat (split; [reflexivity|]). split.
  - intros Hinactive. split.
    + unfold Connection_bool. subst This'. cbn. rewrite Hinactive.
      apply andb_false_r.
    + intros h. unfold ScopedConnection_destroy.
      rewrite Disconnect_inactive by (subst This'; exact Hinactive).
      reflexivity.
  - intros h h' a e D0 Hdestroy He Hin Hother.
    unfold ScopedConnection_destroy in Hdestroy.
    destruct (Disconnect This' h) as [[c1 h1]| |] eqn:Hd; try discriminate.
    cbn in Hdestroy. injection Hdestroy as <-.
    eapply Disconnect_keeps_others; [exact Hd | exact He | exact Hin | exact Hother].
Qed.
End More_Connection.

(** * Further properties of the manager *)

Section More_Manager.
Context {Val World : Type} `{Factory : DelegateFactory Val World}.
Implicit Types (e : LEvent) (d D : DelegatePtr) (c : Connection) (m : Manager)
               (h : Heap) (s : Exec World) (sig : Signature).

(** The four ways [AddEventListener] returns. *)
Lemma AddEventListener_cases (ID : nat) sig (a : nat) (f : CalleeForm) (p : Z)
    (dups : bool) m h c h' :
  AddEventListener ID sig a f p dups m h = Returns (c, h') ->
  exists slot, Events m !! ID = Some slot /\
  ((slot_cast slot sig = None /\
    c = Connection_error FailedToMatchEventType /\ h' = h) \/
   exists addr e, slot = Some (sig, addr) /\ h !! addr = Some e /\
     ((bIsBroadcasting e = true /\
       c = Connection_error ModifyingCallbackListDuringBroadcast /\ h' = h) \/
      (bIsBroadcasting e = false /\
       (InsertDelegate e (make_shared a (MakeDelegate f p)) dups).1 = false /\
       c = Connection_error CallbackAlreadyAdded /\ h' = h) \/
      (bIsBroadcasting e = false /\
       AddListener e a f p dups =
         (Some (make_shared a (MakeDelegate f p)), (AddListener e a f p dups).2) /\
       c = Connection_bound addr (make_shared a (MakeDelegate f p)) /\
       h' = <[addr := (AddListener e a f p dups).2]> h))).
Proof.
  unfold AddEventListener.
  destruct (Events m !! ID) as [slot|]; [|discriminate].
  intros H. exists slot. split; [reflexivity|].
  destruct (slot_cast slot sig) as [addr|] eqn:Hcast;
    [|injection H as <- <-; left; auto].
  right. exists addr.
  assert (Hslot : slot = Some (sig, addr)).
  { destruct slot as [[stored a0]|]; [|discriminate]. simpl in Hcast.
    case_bool_decide; [|discriminate]. by injection Hcast as ->; subst. }
  destruct (h !! addr) as [e|] eqn:He; [|discriminate].
  exists e. split; [exact Hslot|]. split; [reflexivity|].
  unfold IsBroadcasting in H. destruct (bIsBroadcasting e) eqn:Eb;
    [injection H as <- <-; left; auto|].
  right. unfold AddListener in *. rewrite Eb in *.
  destruct (InsertDelegate_cases e (make_shared a (MakeDelegate f p)) dups)
    as [Hc|Hc]; rewrite Hc in *; cbn [fst snd] in *; injection H as <- <-.
  - left. split; [reflexivity|]. split; [reflexivity|]. split; [reflexivity|].
    by apply list_insert_id.
  - right. auto.
Qed.

(** X10.  The connection [AddEventListener] returns tells whether the listener
    was stored.  [operator bool] and [IsActive()] agree on it and hold
    exactly when [GetError()] is [OK]; the listener is then in the event of
    the slot.  Otherwise the store is as it was. *)
Theorem AddEventListener_connection_tells (ID : nat) sig (a : nat)
    (f : CalleeForm) (p : Z) (dups : bool) m h c h' :
  AddEventListener ID sig a f p dups m h = Returns (c, h') ->
  Connection_bool c = IsActive c /\
  (IsActive c = true <-> GetError c = OK) /\
  (GetError c <> OK -> h' = h) /\
  (GetError c = OK ->
   exists addr e',
     Events m !! ID = Some (Some (sig, addr) : Slot) /\
     Event c = Some addr /\ h' !! addr = Some e' /\
     Delegate c = Some (make_shared a (MakeDelegate f p)) /\
     make_shared a (MakeDelegate f p) ∈ Delegates e').
Proof.
  intros H. destruct (AddEventListener_cases _ _ _ _ _ _ _ _ _ _ H)
    as (slot & Hs & [(_ & -> & ->) | (addr & e & -> & He &
         [(_ & -> & ->) | [(_ & _ & -> & ->) | (Hb & Hadd & -> & ->)]])]).
  1-3: (split; [reflexivity|]; split; [split; discriminate|];
        split; [reflexivity | discriminate]).
  split; [reflexivity|]. split; [split; reflexivity|].
  split; [intros Hne; by destruct Hne|]. intros _.
  exists addr, (AddListener e a f p dups).2.
  split; [exact Hs|]. split; [reflexivity|].
  split; [apply list_lookup_insert_eq; by eapply lookup_lt_Some|].
  split; [reflexivity|].
  destruct (AddListener_cases e a f p dups) as [Hc | [_ Hc]];
    rewrite Hc in Hadd |- *; [discriminate|].
  cbn [snd Delegates set_Delegates]. unfold vector_insert.
  apply elem_of_app. right. by left.
Qed.

(** X11.  Each error of [AddEventListener] has one cause: an empty slot or a
    slot declared with another signature gives [FailedToMatchEventType]; a
    broadcasting event gives [ModifyingCallbackListDuringBroadcast]; and
    [CallbackAlreadyAdded] is given only when duplicates are not allowed
    and a stored delegate equals the new one under the factory's
    [operator==].  No other error is returned. *)
Theorem AddEventListener_errors (ID : nat) sig (a : nat) (f : CalleeForm) (p : Z)
    (dups : bool) m h c h' :
  AddEventListener ID sig a f p dups m h = Returns (c, h') ->
  (GetError c = FailedToMatchEventType <->
   exists slot, Events m !! ID = Some slot /\ slot_cast slot sig = None) /\
  (GetError c = ModifyingCallbackListDuringBroadcast <->
   exists addr e, Events m !! ID = Some (Some (sig, addr) : Slot) /\
                  h !! addr = Some e /\ bIsBroadcasting e = true) /\
  (GetError c = CallbackAlreadyAdded ->
   dups = false /\
   exists addr e, Events m !! ID = Some (Some (sig, addr) : Slot) /\
                  h !! addr = Some e /\
                  Exists (fun Data => equal_to (make_shared a (MakeDelegate f p)) Data = true)
                         (Delegates e)) /\
  (GetError c = OK \/ GetError c = FailedToMatchEventType \/
   GetError c = ModifyingCallbackListDuringBroadcast \/
   GetError c = CallbackAlreadyAdded).
Proof.
  intros H.
  assert (Hsame : forall addr, slot_cast (Some (sig, addr)) sig = Some addr).
  { intros addr. simpl. by rewrite bool_decide_eq_true_2. }
  destruct (AddEventListener_cases _ _ _ _ _ _ _ _ _ _ H)
    as (slot & Hs & [(Hcast & -> & ->) | (addr & e & -> & He &
         [(Hb & -> & ->) | [(Hb & Hdup & -> & ->) | (Hb & Hadd & -> & ->)]])]);
    cbn [GetError Error Connection_error Connection_bound].
  - split; [split; [eauto | reflexivity]|].
    split; [split; [discriminate|]|].
    { intros (addr & e & Hs' & _). pose proof (eq_trans (eq_sym Hs) Hs') as Heq. injection Heq as ->.
      rewrite Hsame in Hcast. discriminate. }
    split; [discriminate | auto].
  - split; [split; [discriminate|]|].
    { intros (slot & Hs' & Hcast). pose proof (eq_trans (eq_sym Hs) Hs') as Heq. injection Heq as <-.
      rewrite Hsame in Hcast. discriminate. }
    split; [split; [eauto | reflexivity]|].
    split; [discriminate | auto].
  - split; [split; [discriminate|]|].
    { intros (slot & Hs' & Hcast). pose proof (eq_trans (eq_sym Hs) Hs') as Heq. injection Heq as <-.
      rewrite Hsame in Hcast. discriminate. }
    split; [split; [discriminate|]|].
    { intros (addr' & e' & Hs' & He' & Hb'). pose proof (eq_trans (eq_sym Hs) Hs') as Heq.
      injection Heq as <-. rewrite He in He'. injection He' as <-. congruence. }
    split; [|auto]. intros _.
    apply InsertDelegate_refuses in Hdup as [-> Hex]. eauto 10.
  - split; [split; [discriminate|]|].
    { intros (slot & Hs' & Hcast). pose proof (eq_trans (eq_sym Hs) Hs') as Heq. injection Heq as <-.
      rewrite Hsame in Hcast. discriminate. }
    split; [split; [discriminate|]|].
    { intros (addr' & e' & Hs' & He' & Hb'). pose proof (eq_trans (eq_sym Hs) Hs') as Heq.
      injection Heq as <-. rewrite He in He'. injection He' as <-. congruence. }
    split; [discriminate | auto].
Qed.

(** X12.  A listener added through the manager and disconnected again leaves
    the store exactly as it was before it was added. *)
Theorem AddEventListener_Disconnect (ID : nat) sig (a : nat) (f : CalleeForm)
    (p : Z) (dups : bool) m h c h' :
  AddEventListener ID sig a f p dups m h = Returns (c, h') ->
  GetError c = OK ->
  (forall addr e, Event c = Some addr -> h !! addr = Some e ->
                  fresh_address a (Delegates e)) ->
  Disconnect c h' = Returns (set_bActive c false, h).
Proof.
  intros H Hok Hfresh.
  destruct (AddEventListener_cases _ _ _ _ _ _ _ _ _ _ H)
    as (slot & Hs & [(_ & -> & ->) | (addr & e & -> & He &
         [(_ & -> & ->) | [(_ & _ & -> & ->) | (Hb & Hadd & -> & ->)]])]);
    try discriminate.
  specialize (Hfresh addr e eq_refl He).
  pose proof (AddListener_undo e a f p dups _ _ Hfresh Hadd) as Hundo.
  assert (Hlt : addr < length h) by (by eapply lookup_lt_Some).
  unfold Disconnect. cbn [Event bActive Connection_bound].
  rewrite list_lookup_insert_eq by assumption.
  unfold RemoveListener_Connection. cbn [Delegate Connection_bound].
  assert (Hb' : bIsBroadcasting (AddListener e a f p dups).2 = false).
  { destruct (AddListener_cases e a f p dups) as [Hc | [_ Hc]];
      rewrite Hc; [by rewrite Hc in Hadd | exact Hb]. }
  rewrite Hb'. unfold RemoveListener in Hundo. rewrite Hb' in Hundo.
  injection Hundo as Hundo. rewrite Hundo. cbn [obind].
  rewrite list_insert_insert_eq, list_insert_id by assumption. reflexivity.
Qed.
End More_Manager.

Section More_Dispatch.
Context {Val World : Type} `{Factory : DelegateFactory Val World}.
Implicit Types (e : LEvent) (d D : DelegatePtr) (c : Connection) (m : Manager)
               (h : Heap) (s : Exec World) (sig : Signature).

Lemma slot_cast_same sig (addr : nat) : slot_cast (Some (sig, addr)) sig = Some addr.
Proof. simpl. by rewrite bool_decide_eq_true_2. Qed.

Lemma TriggerEvent_matching (ID : nat) sig (InArgs : list Val) m h s (addr : nat) e :
  bEventsBlocked m = false ->
  Events m !! ID = Some (Some (sig, addr) : Slot) -> h !! addr = Some e ->
  TriggerEvent ID sig InArgs m h s =
    Returns (if is_void (ReturnType sig) then ErrorOnly OK
             else MaybeResult (run_listeners (Delegates e) InArgs (world s)).1 OK,
             <[addr := set_bIsBroadcasting e false]> h,
             {| world := (run_listeners (Delegates e) InArgs (world s)).2;
                calls := calls s ++ broadcast_trace (Delegates e) |}).
Proof.
  intros Hb Hs He. unfold TriggerEvent.
  rewrite Hs, Hb, slot_cast_same, He.
  rewrite Trigger_eq. by destruct (is_void (ReturnType sig)).
Qed.

(** X13.  When events are not blocked and the slot holds an event of the
    signature asked for, [TriggerEvent] reports [OK], calls the listeners
    of that event, each once in stored order, and for a non-void signature
    returns their values in that order.  The store changes at most in the
    flag of that event, and not at all when the event is not broadcasting. *)
Theorem TriggerEvent_dispatches (ID : nat) sig (InArgs : list Val) m h s
    (addr : nat) e :
  bEventsBlocked m = false ->
  Events m !! ID = Some (Some (sig, addr) : Slot) -> h !! addr = Some e ->
  exists out h' s',
    TriggerEvent ID sig InArgs m h s = Returns (out, h', s') /\
    output_error out = OK /\
    (is_void (ReturnType sig) = false ->
     out = MaybeResult (run_listeners (Delegates e) InArgs (world s)).1 OK) /\
    world s' = (run_listeners (Delegates e) InArgs (world s)).2 /\
    calls s' = calls s ++ broadcast_trace (Delegates e) /\
    h' = <[addr := set_bIsBroadcasting e false]> h /\
    (bIsBroadcasting e = false -> h' = h).
Proof.
  intros Hb Hs He. eexists _, _, _.
  split; [by apply TriggerEvent_matching|].
  split; [by destruct (is_void (ReturnType sig))|].
  split; [intros ->; reflexivity|].
  split; [reflexivity|]. split; [reflexivity|]. split; [reflexivity|].
  intros Hflag. apply list_insert_id. rewrite He. f_equal.
  destruct e; simpl in *. by subst.
Qed.

(** X14.  [TriggerEventComplex] is [TriggerEvent] for the signature made of the
    container's element type and the argument types, with the returned
    values handed to [Adder] one by one, in order, starting from the
    default-constructed container: same error, same calls, same store. *)
Theorem TriggerEventComplex_folds_TriggerEvent {ContainerType : Type}
    (Default : ContainerType) (ID : nat) (ValueType : CType) (ArgTypes : list CType)
    (Adder : ContainerType -> Val -> ContainerType) (InArgs : list Val) m h s :
  ValueType <> Void ->
  TriggerEventComplex Default ID ValueType ArgTypes Adder InArgs m h s =
  obind (TriggerEvent ID {| ReturnType := ValueType; Args := ArgTypes |} InArgs m h s)
        (fun r =>
           Returns (MaybeResult
                      (match r.1.1 with
                       | MaybeResult Results _ => fold_left Adder Results Default
                       | ErrorOnly _ => Default
                       end)
                      (output_error r.1.1),
                    r.1.2, r.2)).
Proof.
  intros Hv. assert (Hnv : is_void ValueType = false)
    by (unfold is_void; by rewrite bool_decide_eq_false_2).
  unfold TriggerEventComplex, TriggerEvent. cbn [ReturnType]. rewrite Hnv.
  destruct (Events m !! ID) as [slot|]; [|reflexivity].
  destruct (bEventsBlocked m); [reflexivity|].
  destruct (slot_cast slot _) as [addr|]; [|reflexivity].
  destruct (h !! addr) as [e|]; [|reflexivity].
  rewrite Trigger_eq, TriggerComplex_eq, Hnv. reflexivity.
Qed.

(** X15.  An event that has just been declared has no listeners: whenever
    [DeclareEvent] returns [true], also when it replaces an event that had
    some, the next [TriggerEvent] for that identifier and signature reports
    [OK] with no result, calls nothing and leaves the store as it is. *)
Theorem DeclareEvent_then_TriggerEvent (ID : nat) sig (CanReplace : bool)
    (InArgs : list Val) m h s m' h' :
  bEventsBlocked m = false ->
  DeclareEvent ID sig CanReplace m h = Returns (true, m', h') ->
  TriggerEvent ID sig InArgs m' h' s = Returns (not_triggered sig OK, h', s).
Proof.
  intros Hb. unfold DeclareEvent.
  destruct (Events m !! ID) as [slot|] eqn:Hs; [|discriminate].
  destruct (CanReplace || negb (has_value slot)); [|discriminate].
  intros [= <- <-].
  assert (Hlt : ID < length (Events m)) by (by eapply lookup_lt_Some).
  rewrite (TriggerEvent_matching ID sig InArgs _ _ s (length h) LEvent_new).
  - unfold not_triggered. cbn. rewrite app_nil_r.
    rewrite list_insert_id by (by rewrite lookup_app_r, Nat.sub_diag).
    destruct s. by destruct (is_void (ReturnType sig)).
  - exact Hb.
  - cbn [Events]. by apply list_lookup_insert_eq.
  - by rewrite lookup_app_r, Nat.sub_diag.
Qed.

(** X16.  [DestroyAll] empties every slot and nothing else: the number of slots,
    the block flag and the store are kept.  Afterwards, for every
    identifier, an unblocked [TriggerEvent] answers
    [FailedToMatchEventType] without calling anything, [AddEventListener]
    returns a connection holding that error, and [DeclareEvent] succeeds
    without [CanReplace]. *)
Theorem DestroyAll_empties_every_slot (ID : nat) sig (InArgs : list Val)
    (a : nat) (f : CalleeForm) (p : Z) (dups : bool) m h s :
  ID < length (Events m) ->
  Events (DestroyAll m) !! ID = Some (None : Slot) /\
  length (Events (DestroyAll m)) = length (Events m) /\
  bEventsBlocked (DestroyAll m) = bEventsBlocked m /\
  (bEventsBlocked m = false ->
   TriggerEvent ID sig InArgs (DestroyAll m) h s =
     Returns (not_triggered sig FailedToMatchEventType, h, s)) /\
  AddEventListener ID sig a f p dups (DestroyAll m) h =
    Returns (Connection_error FailedToMatchEventType, h) /\
  (exists m', DeclareEvent ID sig false (DestroyAll m) h =
                Returns (true, m', h ++ [LEvent_new])).
Proof.
  intros Hid.
  assert (Hs : Events (DestroyAll m) !! ID = Some (None : Slot))
    by (cbn; by apply lookup_replicate_2).
  split; [exact Hs|]. split; [cbn; apply length_replicate|].
  split; [reflexivity|]. split; [|split].
  - intros Hb. unfold TriggerEvent, not_triggered.
    rewrite Hs. cbn [bEventsBlocked DestroyAll]. rewrite Hb.
    by destruct (is_void (ReturnType sig)).
  - unfold AddEventListener. by rewrite Hs.
  - unfold DeclareEvent. rewrite Hs. cbn. eauto.
Qed.
End More_Dispatch.

Section More_Store.
Context {Val World : Type} `{Factory : DelegateFactory Val World}.
Implicit Types (e : LEvent) (d D : DelegatePtr) (c : Connection) (m : Manager)
               (h : Heap) (s : Exec World) (sig : Signature).

Lemma store_ok_length m h h' : length h' = length h -> store_ok m h -> store_ok m h'.
Proof. intros Hl Hok ID sig a Hs. rewrite Hl. by eapply Hok. Qed.

Lemma store_ok_new (Count : nat) : store_ok (Manager_new Count) ([] : Heap).
Proof.
  intros ID sig a Hs. cbn in Hs. apply lookup_replicate_1 in Hs as [Hs _].
  discriminate.
Qed.

Lemma AddEventListener_length (ID : nat) sig (a : nat) (f : CalleeForm) (p : Z)
    (dups : bool) m h c h' :
  AddEventListener ID sig a f p dups m h = Returns (c, h') -> length h' = length h.
Proof.
  intros H. destruct (AddEventListener_cases _ _ _ _ _ _ _ _ _ _ H)
    as (slot & _ & [(_ & _ & ->) | (addr & e & _ & _ &
         [(_ & _ & ->) | [(_ & _ & _ & ->) | (_ & _ & _ & ->)]])]);
    try reflexivity.
  apply length_insert.
Qed.

(** X17.  From a new manager and an empty store on, every occupied slot points
    to an event of the store, and the manager's calls keep it so.  In such
    a state, for every identifier below [Count], [DeclareEvent],
    [AddEventListener], [TriggerEvent] and [TriggerEventComplex] return:
    the cast that follows the type check always finds its event.
    [AddEventListener] returns a connection whose [Disconnect] is safe. *)
Theorem manager_calls_return (ID : nat) sig (CanReplace : bool) (a : nat)
    (f : CalleeForm) (p : Z) (dups : bool) (InArgs : list Val) (b : bool) m h s :
  store_ok m h -> ID < length (Events m) ->
  (exists ok m' h',
     DeclareEvent ID sig CanReplace m h = Returns (ok, m', h') /\ store_ok m' h') /\
  (exists c h',
     AddEventListener ID sig a f p dups m h = Returns (c, h') /\
     store_ok m h' /\ conn_ok c h') /\
  (exists out h' s',
     TriggerEvent ID sig InArgs m h s = Returns (out, h', s') /\ store_ok m h') /\
  (forall (ContainerType : Type) (Default : ContainerType)
          (Adder : ContainerType -> Val -> ContainerType),
     ReturnType sig <> Void ->
     exists out h' s',
       TriggerEventComplex Default ID (ReturnType sig) (Args sig) Adder InArgs m h s
         = Returns (out, h', s') /\ store_ok m h') /\
  (forall c c' h', Disconnect c h = Returns (c', h') -> store_ok m h') /\
  store_ok (DestroyAll m) h /\
  store_ok (BlockEvents m b) h /\
  store_ok (Manager_new (length (Events m))) ([] : Heap).
Proof.
  intros Hok Hid.
  destruct (lookup_lt_is_Some_2 _ _ Hid) as [slot Hs].
  assert (Hgo : forall addr, slot_cast slot sig = Some addr -> is_Some (h !! addr)).
  { intros addr Hc. apply lookup_lt_is_Some_2.
    destruct slot as [[stored a0]|]; [|discriminate]. simpl in Hc.
    case_bool_decide; [|discriminate]. injection Hc as <-. by eapply Hok. }
  assert (Htrig : exists out h' s',
            TriggerEvent ID sig InArgs m h s = Returns (out, h', s') /\ store_ok m h').
  { unfold TriggerEvent. rewrite Hs.
    destruct (is_void (ReturnType sig)), (bEventsBlocked m); eauto 6;
      (destruct (slot_cast slot sig) as [addr|]; [|eauto 6]);
      (destruct (Hgo addr eq_refl) as [e He]; rewrite He);
      destruct (Trigger (ReturnType sig) e InArgs s) as [[r e1] s1];
      eexists _, _, _; (split; [reflexivity|]);
      (eapply store_ok_length; [apply length_insert | exact Hok]). }
  split; [|split; [|split; [exact Htrig|split; [|split; [|split; [|split]]]]]].
  - unfold DeclareEvent. rewrite Hs.
    destruct (CanReplace || negb (has_value slot)); [|eauto].
    eexists _, _, _. split; [reflexivity|]. intros ID' sig' a' Hs'. cbn in Hs'.
    rewrite length_app. simpl.
    destruct (decide (ID' = ID)) as [->|Hne].
    + rewrite list_lookup_insert_eq in Hs' by assumption.
      injection Hs' as _ <-. lia.
    + rewrite list_lookup_insert_ne in Hs' by congruence.
      specialize (Hok ID' sig' a' Hs'). lia.
  - assert (Hret : exists c h', AddEventListener ID sig a f p dups m h = Returns (c, h')).
    { unfold AddEventListener. rewrite Hs.
      destruct (slot_cast slot sig) as [addr|] eqn:Hc; [|eauto].
      assert (Hlt : addr < length h).
      { destruct slot as [[stored a0]|]; [|discriminate]. simpl in Hc.
        case_bool_decide; [|discriminate]. injection Hc as <-. by eapply Hok. }
      destruct (lookup_lt_is_Some_2 _ _ Hlt) as [e ->].
      destruct (IsBroadcasting e); [eauto|].
      destruct (AddListener e a f p dups) as [[d|] e']; eauto. }
    destruct Hret as (c & h' & Hret). exists c, h'. split; [exact Hret|]. split.
    + eapply store_ok_length; [|exact Hok]. eapply AddEventListener_length, Hret.
    + eapply AddEventListener_conn_ok, Hret.
  - intros ContainerType Default Adder Hnv. unfold TriggerEventComplex. rewrite Hs.
    destruct (bEventsBlocked m); [eauto 6|].
    replace {| ReturnType := ReturnType sig; Args := Args sig |} with sig
      by (by destruct sig).
    destruct (slot_cast slot sig) as [addr|]; [|eauto 6].
    destruct (Hgo addr eq_refl) as [e He]. rewrite He.
    destruct (TriggerComplex Default (ReturnType sig) Adder e InArgs s) as [[r e1] s1].
    eexists _, _, _. split; [reflexivity|].
    eapply store_ok_length; [apply length_insert | exact Hok].
  - intros c c' h' Hd. eapply store_ok_length; [|exact Hok].
    destruct (Disconnect_returns c h c' h' Hd) as [_ [-> | (? & ? & ? & _ & _ & _ & _ & _ & ->)]];
      [reflexivity | apply length_insert].
  - intros ID' sig' a' Hs'. cbn in Hs'.
    apply lookup_replicate_1 in Hs' as [Hs' _]. discriminate.
  - exact Hok.
  - apply store_ok_new.
Qed.

(** X18.  The manager's calls for one identifier touch one event only: an event
    that is not the one in the slot of that identifier is the same after
    [AddEventListener], [TriggerEvent] and [DeclareEvent] as before. *)
Theorem manager_calls_touch_one_event (ID : nat) sig (CanReplace : bool) (a : nat)
    (f : CalleeForm) (p : Z) (dups : bool) (InArgs : list Val) m h s (a' : nat) e :
  h !! a' = Some e ->
  (forall stored, Events m !! ID <> Some (Some (stored, a') : Slot)) ->
  (forall c h', AddEventListener ID sig a f p dups m h = Returns (c, h') ->
                h' !! a' = Some e) /\
  (forall out h' s', TriggerEvent ID sig InArgs m h s = Returns (out, h', s') ->
                     h' !! a' = Some e) /\
  (forall ok m' h', DeclareEvent ID sig CanReplace m h = Returns (ok, m', h') ->
                    h' !! a' = Some e).
Proof.
  intros He Hother. split; [|split].
  - intros c h' H. destruct (AddEventListener_cases _ _ _ _ _ _ _ _ _ _ H)
      as (slot & Hs & [(_ & _ & ->) | (addr & e0 & -> & _ &
           [(_ & _ & ->) | [(_ & _ & _ & ->) | (_ & _ & _ & ->)]])]);
      try assumption.
    rewrite list_lookup_insert_ne; [assumption|].
    intros ->. by apply (Hother sig).
  - intros out h' s'. unfold TriggerEvent.
    destruct (Events m !! ID) as [slot|] eqn:Hs; [|discriminate].
    assert (Hne : forall addr, slot_cast slot sig = Some addr -> addr <> a').
    { intros addr Hc ->. destruct slot as [[stored a0]|]; [|discriminate].
      simpl in Hc. case_bool_decide; [|discriminate]. injection Hc as ->.
      by apply (Hother stored). }
    destruct (is_void (ReturnType sig)), (bEventsBlocked m);
      try (intros [= _ <- _]; assumption);
      (destruct (slot_cast slot sig) as [addr|]; [|intros [= _ <- _]; assumption]);
      (destruct (h !! addr) as [e0|]; [|discriminate]);
      destruct (Trigger (ReturnType sig) e0 InArgs s) as [[r e1] s1];
      intros [= _ <- _]; (rewrite list_lookup_insert_ne; [assumption|]);
      by apply Hne.
  - intros ok m' h'. unfold DeclareEvent.
    destruct (Events m !! ID) as [slot|]; [|discriminate].
    destruct (CanReplace || negb (has_value slot)); intros [= _ _ <-];
      [by apply lookup_app_l_Some | assumption].
Qed.

Lemma TriggerEvent_after_add (ID : nat) sig (a : nat) (f : CalleeForm) (p : Z)
    (dups : bool) (InArgs : list Val) m h s c h' :
  AddEventListener ID sig a f p dups m h = Returns (c, h') ->
  GetError c = OK ->
  bEventsBlocked m = false ->
  exists out s',
    TriggerEvent ID sig InArgs m h' s = Returns (out, h', s') /\
    output_error out = OK /\
    (a, true) ∈ calls s'.
Proof.
  intros H Hok Hb.
  destruct (AddEventListener_cases _ _ _ _ _ _ _ _ _ _ H)
    as (slot & Hs & [(_ & -> & ->) | (addr & e & -> & He &
         [(_ & -> & ->) | [(_ & _ & -> & ->) | (Hflag & Hadd & -> & ->)]])]);
    try discriminate.
  assert (Hlt : addr < length h) by (by eapply lookup_lt_Some).
  set (e' := (AddListener e a f p dups).2) in *.
  assert (He' : <[addr := e']> h !! addr = Some e')
    by (by apply list_lookup_insert_eq).
  assert (Hb' : bIsBroadcasting e' = false /\
                make_shared a (MakeDelegate f p) ∈ Delegates e').
  { subst e'. destruct (AddListener_cases e a f p dups) as [Hc | [_ Hc]];
      rewrite Hc in Hadd |- *; [discriminate|].
    split; [exact Hflag|]. cbn [snd Delegates set_Delegates]. unfold vector_insert.
    apply elem_of_app. right. by left. }
  destruct Hb' as [Hb' Hin].
  eexists _, _. split; [|split].
  - rewrite (TriggerEvent_matching ID sig InArgs m _ s addr e' Hb Hs He').
    rewrite list_insert_insert_eq.
    replace (set_bIsBroadcasting e' false) with e'
      by (destruct e'; simpl in *; by subst).
    reflexivity.
  - by destruct (is_void (ReturnType sig)).
  - cbn [calls]. apply elem_of_app. right.
    apply list_elem_of_In, in_map_iff. exists (make_shared a (MakeDelegate f p)).
    split; [reflexivity | by apply list_elem_of_In].
Qed.

(** X19.  Publish and subscribe: a listener that [AddEventListener] stored is
    called by the next [TriggerEvent] for that identifier and signature,
    unless events are blocked; the trigger reports [OK] and leaves the
    store as it is. *)
Theorem added_listener_is_called (ID : nat) sig (a : nat) (f : CalleeForm) (p : Z)
    (dups : bool) (InArgs : list Val) m h s c h' :
  AddEventListener ID sig a f p dups m h = Returns (c, h') ->
  GetError c = OK ->
  bEventsBlocked m = false ->
  exists out s',
    TriggerEvent ID sig InArgs m h' s = Returns (out, h', s') /\
    output_error out = OK /\
    (a, true) ∈ calls s'.
Proof. apply TriggerEvent_after_add. Qed.

(** X20.  Blocking events stops delivery, not registration: while events are
    blocked [AddEventListener] stores listeners as usual, a trigger then
    calls nothing, and the first trigger after [BlockEvents(false)] calls
    the listener added in between. *)
Theorem blocked_events_still_register (ID : nat) sig (a : nat) (f : CalleeForm)
    (p : Z) (dups : bool) (InArgs : list Val) m h s c h' :
  AddEventListener ID sig a f p dups m h = Returns (c, h') ->
  GetError c = OK ->
  AddEventListener ID sig a f p dups (BlockEvents m true) h = Returns (c, h') /\
  TriggerEvent ID sig InArgs (BlockEvents m true) h' s =
    Returns (not_triggered sig EventsBlocked, h', s) /\
  exists out s',
    TriggerEvent ID sig InArgs (BlockEvents (BlockEvents m true) false) h' s =
      Returns (out, h', s') /\
    output_error out = OK /\
    (a, true) ∈ calls s'.
Proof.
  intros H Hok. split; [exact H|]. split.
  - apply TriggerEvent_blocked; [|reflexivity]. cbn [Events BlockEvents].
    unfold AddEventListener in H.
    destruct (Events m !! ID) as [slot|] eqn:Hs; [|discriminate].
    by eapply lookup_lt_Some.
  - by apply (TriggerEvent_after_add ID sig a f p dups InArgs
                (BlockEvents (BlockEvents m true) false) h s c h').
Qed.

(** X21.  Declaring an event again with [CanReplace] leaves the connections to
    the replaced event harmless: [Disconnect] through one of them does not
    touch the new event, which still has no listener, so the next
    [TriggerEvent] reports [OK] and calls nothing. *)
Theorem stale_connection_is_harmless (ID : nat) sig (InArgs : list Val) m h s
    m' h' c c' h'' (a0 : nat) :
  bEventsBlocked m = false ->
  DeclareEvent ID sig true m h = Returns (true, m', h') ->
  Event c = Some a0 -> a0 < length h ->
  Disconnect c h' = Returns (c', h'') ->
  Events m' !! ID = Some (Some (sig, length h) : Slot) /\
  h'' !! length h = Some LEvent_new /\
  TriggerEvent ID sig InArgs m' h'' s = Returns (not_triggered sig OK, h'', s).
Proof.
  intros Hb Hdecl Ev Hlt Hd. unfold DeclareEvent in Hdecl.
  destruct (Events m !! ID) as [slot|] eqn:Hs; [|discriminate].
  cbn [orb] in Hdecl. injection Hdecl as <- <-.
  assert (Hid : ID < length (Events m)) by (by eapply lookup_lt_Some).
  assert (Hslot : Events {| Events := <[ID := Some (sig, length h)]> (Events m);
                            bEventsBlocked := bEventsBlocked m |} !! ID
                  = Some (Some (sig, length h) : Slot))
    by (cbn [Events]; by apply list_lookup_insert_eq).
  assert (Hnew : h'' !! length h = Some LEvent_new).
  { destruct (Disconnect_returns c _ c' h'' Hd)
      as [_ [-> | (a1 & e1 & D & Ev1 & _ & _ & _ & _ & ->)]].
    - by rewrite lookup_app_r, Nat.sub_diag.
    - rewrite Ev in Ev1. injection Ev1 as <-.
      rewrite list_lookup_insert_ne by lia.
      by rewrite lookup_app_r, Nat.sub_diag. }
  split; [exact Hslot|]. split; [exact Hnew|].
  rewrite (TriggerEvent_matching ID sig InArgs
             {| Events := <[ID := Some (sig, length h)]> (Events m);
                bEventsBlocked := bEventsBlocked m |}
             h'' s (length h) LEvent_new Hb Hslot Hnew).
  change (set_bIsBroadcasting LEvent_new false) with (LEvent_new (Factory := Factory)).
  rewrite (list_insert_id _ _ _ Hnew).
  unfold not_triggered. cbn. rewrite app_nil_r.
  destruct s. by destruct (is_void (ReturnType sig)).
Qed.
End More_Store.

(** * The further properties at the events and managers of the showcase *)

Lemma StringEvent_distinct : distinct_addresses (Delegates StringEvent).
Proof. apply (bool_decide_unpack _). by vm_compute. Defined.

Lemma Declared_store_ok : store_ok Declared [StringEvent].
Proof.
  intros ID sig a Hs. destruct ID as [|[|[|ID]]]; cbn in Hs; try discriminate.
  injection Hs as _ <-. cbn. lia.
Defined.

Lemma RemoveListener_removes_exactly_witness :
  bIsBroadcasting StringEvent = false /\
  distinct_addresses (Delegates StringEvent) /\
  RemoveListener StringEvent LambdaDelegate =
    (OK, set_Delegates StringEvent
           (filter (other_than LambdaDelegate) (Delegates StringEvent))).
Proof.
  split; [reflexivity|]. split; [exact StringEvent_distinct|].
  destruct (RemoveListener_removes_exactly StringEvent LambdaDelegate
              (Named "EListenerType") [Str "Event #2"] start eq_refl
              StringEvent_distinct) as (H & _).
  exact H.
Defined.

Lemma AddListener_RemoveListener_witness :
  fresh_address 4 (Delegates StringEvent) /\
  AddListener StringEvent 4 (Functor : @CalleeForm _ _ Simple) 5 true =
    (Some FunctorDelegate, WithFunctor) /\
  RemoveListener WithFunctor FunctorDelegate = (OK, StringEvent).
Proof.
  assert (Hfresh : fresh_address 4 (Delegates StringEvent))
    by (repeat constructor; discriminate).
  split; [exact Hfresh|]. split; [reflexivity|].
  destruct (AddListener_RemoveListener StringEvent 4 (Functor : @CalleeForm _ _ Simple)
              5 true FunctorDelegate WithFunctor (Named "EListenerType")
              [Str "Event #1"] start Hfresh eq_refl) as (_ & H & _).
  exact H.
Defined.

Lemma distinct_addresses_kept_witness :
  distinct_addresses (Delegates StringEvent) /\
  fresh_address 4 (Delegates StringEvent) /\
  distinct_addresses (Delegates WithFunctor).
Proof.
  assert (Hfresh : fresh_address 4 (Delegates StringEvent))
    by (repeat constructor; discriminate).
  split; [exact StringEvent_distinct|]. split; [exact Hfresh|].
  destruct (distinct_addresses_kept StringEvent 4 (Functor : @CalleeForm _ _ Simple)
              5 true LambdaDelegate (Named "EListenerType") [Str "Event #1"] start
              StringEvent_distinct) as (H & _).
  exact (H Hfresh).
Defined.

Lemma higher_priority_called_first_witness :
  reachable StringEvent /\
  Delegates StringEvent !! 0 = Some FreeDelegate /\
  Delegates StringEvent !! 2 = Some MemberDelegate /\
  (prio MemberDelegate < prio FreeDelegate)%Z /\
  0 < 2 /\
  calls (Trigger (Named "EListenerType") StringEvent [Str "Event #1"] start).2 !! 0
    = Some (1, true).
Proof.
  assert (Hreach : reachable StringEvent).
  { unfold StringEvent, SingleEventTest_listeners. cbn [AddListeners].
    apply (reach_AddListener (Factory := Simple)
             (AddListener (AddListener LEvent_new 1 _ 2 false).2 2 _ 0 false).2
             3 (LambdaListener : @CalleeForm _ _ Simple) 1 false).
    apply (reach_AddListener (Factory := Simple)
             (AddListener LEvent_new 1 _ 2 false).2
             2 (MemberListener : @CalleeForm _ _ Simple) 0 false).
    apply (reach_AddListener (Factory := Simple) LEvent_new
             1 (FreeListener : @CalleeForm _ _ Simple) 2 false).
    apply reach_new. }
  assert (Hlt : (prio MemberDelegate < prio FreeDelegate)%Z) by (cbn; lia).
  split; [exact Hreach|]. split; [reflexivity|]. split; [reflexivity|].
  split; [exact Hlt|].
  destruct (higher_priority_called_first StringEvent 0 2 FreeDelegate MemberDelegate
              (Named "EListenerType") [Str "Event #1"] start Hreach eq_refl eq_refl Hlt)
    as (H1 & H2 & _).
  split; [exact H1 | exact H2].
Defined.

Lemma SimpleDelegateFactory_stores_duplicates_witness :
  bIsBroadcasting StringEvent = false /\
  length (Delegates
            (AddListener (AddListener StringEvent 4 (FreeListener : @CalleeForm _ _ Simple)
                            2 false).2
                         5 (FreeListener : @CalleeForm _ _ Simple) 2 false).2) = 5.
Proof.
  split; [reflexivity|].
  destruct (SimpleDelegateFactory_stores_duplicates Value State StringEvent 4 5
              FreeListener 2 false eq_refl) as (_ & _ & H).
  exact H.
Defined.

Lemma Disconnect_removes_listener_witness :
  Event LambdaConnection = Some 0 /\
  Delegate LambdaConnection = Some LambdaDelegate /\
  bActive LambdaConnection = true /\
  [StringEvent] !! 0 = Some StringEvent /\
  bIsBroadcasting StringEvent = false /\
  distinct_addresses (Delegates StringEvent) /\
  Disconnect LambdaConnection [StringEvent] =
    Returns (set_bActive LambdaConnection false,
             <[0 := set_Delegates StringEvent
                      (filter (other_than LambdaDelegate) (Delegates StringEvent))]>
               [StringEvent]).
Proof.
  do 5 (split; [reflexivity|]). split; [exact StringEvent_distinct|].
  destruct (Disconnect_removes_listener LambdaConnection [StringEvent] 0 StringEvent
              LambdaDelegate (Named "EListenerType") [Str "Event #2"] start
              eq_refl eq_refl eq_refl eq_refl eq_refl StringEvent_distinct) as (H & _).
  exact H.
Defined.

Lemma ScopedConnection_move_hands_over_witness :
  Event LambdaConnection = Some 0 /\
  Delegate LambdaConnection = Some LambdaDelegate /\
  bActive LambdaConnection = true /\
  [StringEvent] !! 0 = Some StringEvent /\
  bIsBroadcasting StringEvent = false /\
  distinct_addresses (Delegates StringEvent) /\
  ScopedConnection_destroy (ScopedConnection_move LambdaConnection).2 [StringEvent] =
    Returns [StringEvent] /\
  ScopedConnection_destroy (ScopedConnection_move LambdaConnection).1 [StringEvent] =
    Returns (<[0 := set_Delegates StringEvent
                      (filter (other_than LambdaDelegate) (Delegates StringEvent))]>
               [StringEvent]).
Proof.
  do 5 (split; [reflexivity|]). split; [exact StringEvent_distinct|].
  destruct (ScopedConnection_move_hands_over LambdaConnection [StringEvent] 0 StringEvent
              LambdaDelegate eq_refl eq_refl eq_refl eq_refl eq_refl
              StringEvent_distinct) as (_ & _ & H1 & H2 & _).
  split; [exact (H1 [StringEvent]) | exact H2].
Defined.

Lemma AddEventListener_connection_tells_witness :
  AddEventListener String_ StringSignature 4 (Functor : @CalleeForm _ _ Simple) 5 true
                   Declared [StringEvent] =
    Returns (FunctorConnection, [WithFunctor]) /\
  Connection_bool FunctorConnection = IsActive FunctorConnection /\
  (IsActive FunctorConnection = true <-> GetError FunctorConnection = OK).
Proof.
  split; [reflexivity|].
  destruct (AddEventListener_connection_tells String_ StringSignature 4
              (Functor : @CalleeForm _ _ Simple) 5 true Declared [StringEvent]
              FunctorConnection [WithFunctor] eq_refl) as (H1 & H2 & _).
  split; [exact H1 | exact H2].
Defined.

Lemma AddEventListener_errors_witness :
  AddEventListener String_ StringSignature 4 (Functor : @CalleeForm _ _ Simple) 5 true
                   Declared [Broadcasting] =
    Returns (Connection_error ModifyingCallbackListDuringBroadcast, [Broadcasting]) /\
  (GetError (Connection_error (Factory := Simple) ModifyingCallbackListDuringBroadcast)
     = ModifyingCallbackListDuringBroadcast <->
   exists addr e, Events Declared !! String_ = Some (Some (StringSignature, addr)) /\
                  [Broadcasting] !! addr = Some e /\ bIsBroadcasting e = true).
Proof.
  split; [reflexivity|].
  destruct (AddEventListener_errors String_ StringSignature 4
              (Functor : @CalleeForm _ _ Simple) 5 true Declared [Broadcasting]
              (Connection_error ModifyingCallbackListDuringBroadcast) [Broadcasting]
              eq_refl) as (_ & H & _).
  exact H.
Defined.

Lemma AddEventListener_Disconnect_witness :
  AddEventListener String_ StringSignature 4 (Functor : @CalleeForm _ _ Simple) 5 true
                   Declared [StringEvent] =
    Returns (FunctorConnection, [WithFunctor]) /\
  GetError FunctorConnection = OK /\
  fresh_address 4 (Delegates StringEvent) /\
  Disconnect FunctorConnection [WithFunctor] =
    Returns (set_bActive FunctorConnection false, [StringEvent]).
Proof.
  assert (Hfresh : fresh_address 4 (Delegates StringEvent))
    by (repeat constructor; discriminate).
  split; [reflexivity|]. split; [reflexivity|]. split; [exact Hfresh|].
  apply (AddEventListener_Disconnect String_ StringSignature 4
           (Functor : @CalleeForm _ _ Simple) 5 true Declared [StringEvent]
           FunctorConnection [WithFunctor] eq_refl eq_refl).
  intros addr e [= <-] [= <-]. exact Hfresh.
Defined.

Lemma TriggerEvent_dispatches_witness :
  bEventsBlocked Declared = false /\
  Events Declared !! String_ = Some (Some (StringSignature, 0)) /\
  [StringEvent] !! 0 = Some StringEvent /\
  exists out h' s',
    TriggerEvent String_ StringSignature [Str "Managed Event #1"] Declared
                 [StringEvent] start = Returns (out, h', s') /\
    output_error out = OK /\
    h' = [StringEvent].
Proof.
  do 3 (split; [reflexivity|]).
  destruct (TriggerEvent_dispatches String_ StringSignature [Str "Managed Event #1"]
              Declared [StringEvent] start 0 StringEvent eq_refl eq_refl eq_refl)
    as (out & h' & s' & H1 & H2 & _ & _ & _ & _ & H3).
  exists out, h', s'. split; [exact H1|]. split; [exact H2 | exact (H3 eq_refl)].
Defined.

Lemma TriggerEventComplex_folds_TriggerEvent_witness :
  Named "EListenerType" <> Void /\
  TriggerEventComplex [] String_ (Named "EListenerType") [Named "std::string_view"]
                      set_insert [Str "Managed Event #1"] Declared [StringEvent] start =
  obind (TriggerEvent String_ StringSignature [Str "Managed Event #1"] Declared
                      [StringEvent] start)
        (fun r =>
           Returns (MaybeResult
                      (match r.1.1 with
                       | MaybeResult Results _ => fold_left set_insert Results []
                       | ErrorOnly _ => []
                       end)
                      (output_error r.1.1),
                    r.1.2, r.2)).
Proof.
  assert (Hne : Named "EListenerType" <> Void) by discriminate.
  split; [exact Hne|].
  exact (TriggerEventComplex_folds_TriggerEvent (Factory := Simple) []
           String_ (Named "EListenerType") [Named "std::string_view"] set_insert
           [Str "Managed Event #1"] Declared [StringEvent] start Hne).
Defined.

Lemma DeclareEvent_then_TriggerEvent_witness :
  bEventsBlocked (Manager_new Count) = false /\
  DeclareEvent (Factory := Simple) String_ StringSignature false (Manager_new Count) [] =
    Returns (true, Declared, [LEvent_new]) /\
  TriggerEvent String_ StringSignature [Str "Error"] Declared [LEvent_new] start =
    Returns (MaybeResult [] OK, [LEvent_new], start).
Proof.
  split; [reflexivity|]. split; [reflexivity|].
  exact (DeclareEvent_then_TriggerEvent (Factory := Simple) String_ StringSignature
           false [Str "Error"] (Manager_new Count) [] start Declared [LEvent_new]
           eq_refl eq_refl).
Defined.

Lemma DestroyAll_empties_every_slot_witness :
  String_ < length (Events Declared) /\
  Events (DestroyAll Declared) !! String_ = Some None /\
  AddEventListener String_ StringSignature 4 (Functor : @CalleeForm _ _ Simple) 5 true
                   (DestroyAll Declared) [StringEvent] =
    Returns (Connection_error FailedToMatchEventType, [StringEvent]).
Proof.
  assert (Hid : String_ < length (Events Declared)) by (cbn; unfold String_; lia).
  split; [exact Hid|].
  destruct (DestroyAll_empties_every_slot String_ StringSignature [Str "Error"] 4
              (Functor : @CalleeForm _ _ Simple) 5 true Declared [StringEvent] start Hid)
    as (H1 & _ & _ & _ & H2 & _).
  split; [exact H1 | exact H2].
Defined.

Lemma manager_calls_return_witness :
  store_ok Declared [StringEvent] /\
  String_ < length (Events Declared) /\
  exists out h' s',
    TriggerEvent String_ StringSignature [Str "Managed Event #1"] Declared
                 [StringEvent] start = Returns (out, h', s') /\
    store_ok Declared h'.
Proof.
  assert (Hid : String_ < length (Events Declared)) by (cbn; unfold String_; lia).
  split; [exact Declared_store_ok|]. split; [exact Hid|].
  destruct (manager_calls_return String_ StringSignature false 4
              (Functor : @CalleeForm _ _ Simple) 5 true [Str "Managed Event #1"] true
              Declared [StringEvent] start Declared_store_ok Hid) as (_ & _ & H & _).
  exact H.
Defined.

Lemma manager_calls_touch_one_event_witness :
  [StringEvent; LEvent_new] !! 1 = Some LEvent_new /\
  (forall stored, Events Declared !! String_ <> Some (Some (stored, 1))) /\
  (forall c h',
     AddEventListener String_ StringSignature 4 (Functor : @CalleeForm _ _ Simple) 5 true
                      Declared [StringEvent; LEvent_new] = Returns (c, h') ->
     h' !! 1 = Some LEvent_new).
Proof.
  assert (Hother : forall stored, Events Declared !! String_ <> Some (Some (stored, 1)))
    by (intros stored; discriminate).
  split; [reflexivity|]. split; [exact Hother|].
  destruct (manager_calls_touch_one_event String_ StringSignature false 4
              (Functor : @CalleeForm _ _ Simple) 5 true [Str "Managed Event #1"]
              Declared [StringEvent; LEvent_new] start 1 LEvent_new eq_refl Hother)
    as (H & _).
  exact H.
Defined.

Lemma added_listener_is_called_witness :
  AddEventListener String_ StringSignature 4 (Functor : @CalleeForm _ _ Simple) 5 true
                   Declared [StringEvent] =
    Returns (FunctorConnection, [WithFunctor]) /\
  GetError FunctorConnection = OK /\
  bEventsBlocked Declared = false /\
  exists out s',
    TriggerEvent String_ StringSignature [Str "Managed Event #1"] Declared
                 [WithFunctor] start = Returns (out, [WithFunctor], s') /\
    output_error out = OK /\
    (4, true) ∈ calls s'.
Proof.
  do 3 (split; [reflexivity|]).
  exact (added_listener_is_called String_ StringSignature 4
           (Functor : @CalleeForm _ _ Simple) 5 true [Str "Managed Event #1"]
           Declared [StringEvent] start FunctorConnection [WithFunctor]
           eq_refl eq_refl eq_refl).
Defined.

Lemma blocked_events_still_register_witness :
  AddEventListener String_ StringSignature 4 (Functor : @CalleeForm _ _ Simple) 5 true
                   Declared [StringEvent] =
    Returns (FunctorConnection, [WithFunctor]) /\
  GetError FunctorConnection = OK /\
  TriggerEvent String_ StringSignature [Str "Managed Event #1"]
               (BlockEvents Declared true) [WithFunctor] start =
    Returns (MaybeResult [] EventsBlocked, [WithFunctor], start) /\
  exists out s',
    TriggerEvent String_ StringSignature [Str "Managed Event #1"]
                 (BlockEvents (BlockEvents Declared true) false) [WithFunctor] start =
      Returns (out, [WithFunctor], s') /\
    output_error out = OK /\
    (4, true) ∈ calls s'.
Proof.
  do 2 (split; [reflexivity|]).
  destruct (blocked_events_still_register String_ StringSignature 4
              (Functor : @CalleeForm _ _ Simple) 5 true [Str "Managed Event #1"]
              Declared [StringEvent] start FunctorConnection [WithFunctor]
              eq_refl eq_refl) as (_ & H1 & H2).
  split; [exact H1 | exact H2].
Defined.

Lemma stale_connection_is_harmless_witness :
  bEventsBlocked Declared = false /\
  DeclareEvent String_ StringSignature true Declared [WithFunctor] =
    Returns (true,
             {| Events := [Some (StringSignature, 1); None; None];
                bEventsBlocked := false |},
             [WithFunctor; LEvent_new]) /\
  Event FunctorConnection = Some 0 /\
  0 < length [WithFunctor] /\
  Disconnect FunctorConnection [WithFunctor; LEvent_new] =
    Returns (set_bActive FunctorConnection false, [StringEvent; LEvent_new]) /\
  TriggerEvent String_ StringSignature [Str "Error"]
               {| Events := [Some (StringSignature, 1); None; None];
                  bEventsBlocked := false |}
               [StringEvent; LEvent_new] start =
    Returns (MaybeResult [] OK, [StringEvent; LEvent_new], start).
Proof.
  assert (Hlt : 0 < length [WithFunctor]) by (cbn; lia).
  do 3 (split; [reflexivity|]). split; [exact Hlt|]. split; [reflexivity|].
  destruct (stale_connection_is_harmless String_ StringSignature [Str "Error"]
              Declared [WithFunctor] start
              {| Events := [Some (StringSignature, 1); None; None];
                 bEventsBlocked := false |}
              [WithFunctor; LEvent_new] FunctorConnection
              (set_bActive FunctorConnection false) [StringEvent; LEvent_new] 0
              eq_refl eq_refl eq_refl Hlt eq_refl) as (_ & _ & H).
  exact H.
Defined.
